(** * generic_control_toolbox: controller lifecycle and wrench manager

    A shallow embedding of

    - [include/generic_control_toolbox/controller_template.hpp]
      (class template [ControllerTemplate]) and
    - [src/wrench_manager.cpp] (class [WrenchManager]),

    followed by the properties of the two components.

    C++ [double] values are IEEE-754 binary64 numbers; they are embedded as
    [spec_float] with the binary64 parameters, so that comparisons, the
    [std::isfinite] test and the arithmetic of the wrench computations can
    be evaluated.  Reading a [std::vector] outside its bounds is undefined
    behaviour in C++; the embedding is total and sends such a read to the
    distinguished outcome [OutOfRange]. *)

From Stdlib Require Import ZArith List String Bool Lia.
From Stdlib Require Import Floats.SpecFloat.
Import ListNotations.

Set Implicit Arguments.

(* ------------------------------------------------------------------ *)
(** ** binary64 numbers *)

Module Double.

Definition prec : Z := 53.
Definition emax : Z := 1024.

Definition double : Type := spec_float.

(** The literal [0.0]. *)
Definition zero : double := S754_zero false.

Definition nan : double := S754_nan.

(** Conversion of an integer literal. *)
Definition of_Z (z : Z) : double := binary_normalize prec emax z 0 false.

Definition add : double -> double -> double := SFadd prec emax.
Definition sub : double -> double -> double := SFsub prec emax.
Definition mul : double -> double -> double := SFmul prec emax.
Definition div : double -> double -> double := SFdiv prec emax.

(** [a > b] on doubles: false as soon as one side is a NaN. *)
Definition gt (a b : double) : bool := SFltb b a.

(** [std::isfinite]. *)
Definition isfinite (x : double) : bool :=
  match x with
  | S754_zero _ | S754_finite _ _ _ => true
  | S754_infinity _ | S754_nan => false
  end.

End Double.

Definition double : Type := Double.double.

(* ------------------------------------------------------------------ *)
(** ** Outcomes of code that indexes vectors *)

Inductive outcome (A : Type) : Type :=
| Returned (a : A)
| OutOfRange.

Arguments OutOfRange {A}.

Definition bind {A B : Type} (m : outcome A) (k : A -> outcome B) : outcome B :=
  match m with
  | Returned a => k a
  | OutOfRange => OutOfRange
  end.

Declare Scope outcome_scope.
Delimit Scope outcome_scope with outcome.
Notation "x <- m ;; k" := (bind m (fun x => k))
  (at level 100, m at next level, right associativity) : outcome_scope.
Notation "' p <- m ;; k" := (bind m (fun x => match x with p => k end))
  (at level 100, p pattern, m at next level, right associativity) : outcome_scope.

(** [v[i]] on a [std::vector]. *)
Definition at_ {A : Type} (v : list A) (i : nat) : outcome A :=
  match nth_error v i with
  | Some a => Returned a
  | None => OutOfRange
  end.

(* ------------------------------------------------------------------ *)
(** ** Messages and time *)

(** [ros::Time] / [ros::Duration] are only read through [toSec()] by the
    code below, so a duration is represented by that reading. *)
Record Duration : Type := { toSec : double }.

Record Time : Type := { sec : Z; nsec : Z }.

(** [std_msgs/Header]. *)
Record Header : Type := {
  seq : Z;
  stamp : Time;
  frame_id : string
}.

Definition Header_default : Header :=
  {| seq := 0; stamp := {| sec := 0; nsec := 0 |}; frame_id := EmptyString |}.

(** [sensor_msgs::JointState]. *)
Record JointState : Type := {
  js_header : Header;
  name : list string;
  position : list double;
  velocity : list double;
  effort : list double
}.

(** A default-constructed [sensor_msgs::JointState]. *)
Definition JointState_default : JointState :=
  {| js_header := Header_default; name := []; position := [];
     velocity := []; effort := [] |}.

Definition set_velocity (v : list double) (s : JointState) : JointState :=
  {| js_header := js_header s; name := name s; position := position s;
     velocity := v; effort := effort s |}.

(** rosconsole severities used by the two classes. *)
Inductive Severity : Type := INFO | WARN | ERROR.

(* ------------------------------------------------------------------ *)
(** ** The action server the controller talks to

    [actionlib::SimpleActionServer] is an external collaborator.  The
    controller only uses [isActive], [acceptNewGoal], [publishFeedback],
    [setAborted] and [setPreempted]; the model keeps whether the current
    goal is active and what has been sent to the action client. *)

Module ActionServer.
Section Server.

Variables Goal Feedback Result : Type.

Inductive Sent : Type :=
| Accepted (g : Goal)
| FeedbackMsg (f : Feedback)
| Aborted (r : Result)
| Preempted (r : Result)
| Succeeded (r : Result).

Record t : Type := { active : bool; sent : list Sent }.

(** A server right after [start()]: no goal yet. *)
Definition start : t := {| active := false; sent := [] |}.

Definition isActive (s : t) : bool := active s.

Definition acceptNewGoal (g : Goal) (s : t) : t :=
  {| active := true; sent := sent s ++ [Accepted g] |}.

Definition publishFeedback (f : Feedback) (s : t) : t :=
  {| active := active s; sent := sent s ++ [FeedbackMsg f] |}.

Definition setAborted (r : Result) (s : t) : t :=
  {| active := false; sent := sent s ++ [Aborted r] |}.

Definition setPreempted (r : Result) (s : t) : t :=
  {| active := false; sent := sent s ++ [Preempted r] |}.

Definition setSucceeded (r : Result) (s : t) : t :=
  {| active := false; sent := sent s ++ [Succeeded r] |}.

End Server.

Arguments start {Goal Feedback Result}.
Arguments isActive {Goal Feedback Result} s.
Arguments acceptNewGoal {Goal Feedback Result} g s.
Arguments publishFeedback {Goal Feedback Result} f s.
Arguments setAborted {Goal Feedback Result} r s.
Arguments setPreempted {Goal Feedback Result} r s.
Arguments setSucceeded {Goal Feedback Result} r s.
Arguments Accepted {Goal Feedback Result} g.
Arguments FeedbackMsg {Goal Feedback Result} f.
Arguments Aborted {Goal Feedback Result} r.
Arguments Preempted {Goal Feedback Result} r.
Arguments Succeeded {Goal Feedback Result} r.

End ActionServer.

(* ------------------------------------------------------------------ *)
(** ** controller_template.hpp *)

(** [const double MAX_DT = 0.5;] *)
Definition MAX_DT : double :=
  Eval vm_compute in Double.div (Double.of_Z 1) (Double.of_Z 2).

Section ControllerTemplate.

(** The template parameters [ActionGoal], [ActionFeedback] and
    [ActionResult], and the data members a derived class adds. *)
Variables ActionGoal ActionFeedback ActionResult Derived : Type.

(** What a derived class can reach: the [protected] members
    [action_server_], [feedback_], [result_] and its own members.  The
    [private] members of [ControllerTemplate] are out of its reach. *)
Record Protected : Type := {
  action_server_ : ActionServer.t ActionGoal ActionFeedback ActionResult;
  feedback_ : ActionFeedback;
  result_ : ActionResult;
  derived_ : Derived
}.

Definition set_action_server
    (s : ActionServer.t ActionGoal ActionFeedback ActionResult)
    (p : Protected) : Protected :=
  {| action_server_ := s; feedback_ := feedback_ p; result_ := result_ p;
     derived_ := derived_ p |}.

(** The pure virtual methods of [ControllerTemplate]. *)
Class Hooks : Type := {
  controlAlgorithm : JointState -> Duration -> Protected -> JointState * Protected;
  parseGoal : ActionGoal -> Protected -> bool * Protected;
  resetController : Protected -> Protected
}.

(** What the class does towards the outside besides talking to the action
    server: console lines and calls of the virtual methods. *)
Inductive Event : Type :=
| Log (level : Severity) (text : string)
| CallControlAlgorithm (current_state : JointState) (dt : Duration)
| CallParseGoal (goal : ActionGoal)
| CallResetController.

Record ControllerTemplate : Type := {
  prot : Protected;
  action_name_ : string;
  last_state_ : JointState;
  has_state_ : bool;
  acquired_goal_ : bool;
  events_ : list Event
}.

Definition set_prot (p : Protected) (c : ControllerTemplate) : ControllerTemplate :=
  {| prot := p; action_name_ := action_name_ c; last_state_ := last_state_ c;
     has_state_ := has_state_ c; acquired_goal_ := acquired_goal_ c;
     events_ := events_ c |}.

Definition set_last_state (s : JointState) (c : ControllerTemplate) : ControllerTemplate :=
  {| prot := prot c; action_name_ := action_name_ c; last_state_ := s;
     has_state_ := has_state_ c; acquired_goal_ := acquired_goal_ c;
     events_ := events_ c |}.

Definition set_has_state (b : bool) (c : ControllerTemplate) : ControllerTemplate :=
  {| prot := prot c; action_name_ := action_name_ c; last_state_ := last_state_ c;
     has_state_ := b; acquired_goal_ := acquired_goal_ c;
     events_ := events_ c |}.

Definition set_acquired_goal (b : bool) (c : ControllerTemplate) : ControllerTemplate :=
  {| prot := prot c; action_name_ := action_name_ c; last_state_ := last_state_ c;
     has_state_ := has_state_ c; acquired_goal_ := b;
     events_ := events_ c |}.

Definition emit (e : Event) (c : ControllerTemplate) : ControllerTemplate :=
  {| prot := prot c; action_name_ := action_name_ c; last_state_ := last_state_ c;
     has_state_ := has_state_ c; acquired_goal_ := acquired_goal_ c;
     events_ := events_ c ++ [e] |}.

(** [action_server_->f(...)] for a method [f] that changes the server. *)
Definition on_server
    (f : ActionServer.t ActionGoal ActionFeedback ActionResult ->
         ActionServer.t ActionGoal ActionFeedback ActionResult)
    (c : ControllerTemplate) : ControllerTemplate :=
  set_prot (set_action_server (f (action_server_ (prot c))) (prot c)) c.

Context {hooks : Hooks}.

(** [resetFlags()] *)
Definition resetFlags (c : ControllerTemplate) : ControllerTemplate :=
  set_acquired_goal false (set_has_state false c).

(** [startActionlib()]: the server is created and started, the callbacks
    are registered. *)
Definition startActionlib (c : ControllerTemplate) : ControllerTemplate :=
  let c := on_server (fun _ => ActionServer.start) c in
  emit (Log INFO (action_name_ c ++ " initialized successfully!")) c.

(** The constructor.  [feedback0], [result0] and [derived0] are the
    default-constructed members. *)
Definition ControllerTemplate_new (action_name : string)
    (feedback0 : ActionFeedback) (result0 : ActionResult) (derived0 : Derived)
    : ControllerTemplate :=
  let c := {| prot := {| action_server_ := ActionServer.start;
                         feedback_ := feedback0; result_ := result0;
                         derived_ := derived0 |};
              action_name_ := action_name;
              last_state_ := JointState_default;
              has_state_ := false; acquired_goal_ := false;
              events_ := [] |} in
  startActionlib (resetFlags c).

(** [isActive()] *)
Definition isActive (c : ControllerTemplate) : bool :=
  if negb (ActionServer.isActive (action_server_ (prot c))) then false else true.

(** [resetInternalState()] *)
Definition resetInternalState (c : ControllerTemplate) : ControllerTemplate :=
  let c := resetFlags c in
  let c := emit CallResetController c in
  set_prot (resetController (prot c)) c.

(** [lastState(current)] *)
Definition lastState (current : JointState) (c : ControllerTemplate)
    : JointState * ControllerTemplate :=
  if Nat.eqb (List.length (position current)) 0 then
    let c := emit (Log WARN "lastState got invalid state") c in
    (last_state_ c, c)
  else
    let c :=
      if negb (has_state_ c) then
        let seeded :=
          set_velocity (map (fun _ => Double.zero) (velocity current)) current in
        set_has_state true (set_last_state seeded c)
      else c in
    (last_state_ c, c).

(** The loop that verifies the sanity of the values of [ret], started at
    index [i] with [todo = ret.name.size() - i] iterations left.
    [Returned false] is the early exit taken at a non-finite value. *)
Fixpoint verify_sanity (ret : JointState) (i todo : nat) : outcome bool :=
  match todo with
  | O => Returned true
  | S todo' =>
      (p <- at_ (position ret) i ;;
       if negb (Double.isfinite p) then Returned false
       else
         v <- at_ (velocity ret) i ;;
         if negb (Double.isfinite v) then Returned false
         else verify_sanity ret (S i) todo')%outcome
  end.

(** The middle of [updateControl]: the call of the control algorithm, the
    feedback, and the reset when the goal is no longer active afterwards. *)
Definition run_algorithm (current_state : JointState) (dt : Duration)
    (c : ControllerTemplate) : JointState * ControllerTemplate :=
  let c := emit (CallControlAlgorithm current_state dt) c in
  let (ret, p) := controlAlgorithm current_state dt (prot c) in
  let c := set_prot p c in
  let c := on_server (ActionServer.publishFeedback (feedback_ (prot c))) c in
  let c :=
    if negb (ActionServer.isActive (action_server_ (prot c)))
    then resetInternalState c else c in
  (ret, c).

(** [updateControl(current_state, dt)].  The throttled debug line is not
    part of the model. *)
Definition updateControl (current_state : JointState) (dt : Duration)
    (c : ControllerTemplate) : outcome (JointState * ControllerTemplate) :=
  if negb (ActionServer.isActive (action_server_ (prot c)))
     || negb (acquired_goal_ c) then
    Returned (lastState current_state c)
  else if Double.gt (toSec dt) MAX_DT then
    let c := emit (Log ERROR (action_name_ c ++
               " did not receive updates for more than 0.5 seconds, aborting")) c in
    let c := on_server (ActionServer.setAborted (result_ (prot c))) c in
    Returned (lastState current_state c)
  else
    let (ret, c) := run_algorithm current_state dt c in
    (ok <- verify_sanity ret 0 (List.length (name ret)) ;;
     if ok then Returned (ret, c)
     else
       let c := emit (Log ERROR ("Invalid joint states in " ++ action_name_ c)) c in
       Returned (lastState current_state c))%outcome.

(** [goalCB()], run by the action server when [goal] has arrived. *)
Definition goalCB (goal : ActionGoal) (c : ControllerTemplate)
    : bool * ControllerTemplate :=
  let c := on_server (ActionServer.acceptNewGoal goal) c in
  let c := emit (CallParseGoal goal) c in
  let (parsed, p) := parseGoal goal (prot c) in
  let c := set_prot p c in
  if negb parsed then
    (false, on_server (ActionServer.setAborted (result_ (prot c))) c)
  else
    let c := set_acquired_goal true c in
    (true, emit (Log INFO ("New goal received in " ++ action_name_ c)) c).

(** [preemptCB()] *)
Definition preemptCB (c : ControllerTemplate) : ControllerTemplate :=
  let c := on_server (ActionServer.setPreempted (result_ (prot c))) c in
  let c := emit (Log WARN (action_name_ c ++ " preempted!")) c in
  resetInternalState c.

(** A run of successive [updateControl] calls; the commands returned, in
    order, and the controller left behind. *)
Fixpoint updateControl_run (calls : list (JointState * Duration))
    (c : ControllerTemplate) : outcome (list JointState * ControllerTemplate) :=
  match calls with
  | [] => Returned ([], c)
  | (current_state, dt) :: calls' =>
      ('(cmd, c1) <- updateControl current_state dt c ;;
       '(cmds, c2) <- updateControl_run calls' c1 ;;
       Returned (cmd :: cmds, c2))%outcome
  end.

(** The first state of a list with a non-empty position array. *)
Definition first_valid (states : list JointState) : option JointState :=
  find (fun s => negb (Nat.eqb (List.length (position s)) 0)) states.

End ControllerTemplate.

Arguments Log {ActionGoal} level text.
Arguments CallControlAlgorithm {ActionGoal} current_state dt.
Arguments CallParseGoal {ActionGoal} goal.
Arguments CallResetController {ActionGoal}.
Arguments ControllerTemplate_new {ActionGoal ActionFeedback ActionResult Derived}
  action_name feedback0 result0 derived0.

(* ------------------------------------------------------------------ *)
(** ** Geometry: messages, KDL and Eigen values

    The message types and the KDL, Eigen and tf conversion operations are
    library code used by [wrench_manager.cpp]; they are written out here
    after their library definitions so that the manager can be run. *)

Module geometry_msgs.

(** [geometry_msgs/Vector3]; [geometry_msgs/Point] has the same fields. *)
Record Vector3 : Type := { x : double; y : double; z : double }.

Record Quaternion : Type := { qx : double; qy : double; qz : double; qw : double }.

Record Pose : Type := { pose_position : Vector3; orientation : Quaternion }.

Record PoseStamped : Type := { ps_header : Header; pose : Pose }.

Record Wrench : Type := { force : Vector3; torque : Vector3 }.

Record WrenchStamped : Type := { ws_header : Header; wrench : Wrench }.

End geometry_msgs.

Module KDL.

Record Vector : Type := { vx : double; vy : double; vz : double }.

(** Row-major 3x3 rotation matrix. *)
Record Rotation : Type := {
  Xx : double; Yx : double; Zx : double;
  Xy : double; Yy : double; Zy : double;
  Xz : double; Yz : double; Zz : double
}.

Record Frame : Type := { p : Vector; M : Rotation }.

Record Wrench : Type := { force : Vector; torque : Vector }.

Definition Vector_Zero : Vector :=
  {| vx := Double.zero; vy := Double.zero; vz := Double.zero |}.

(** [KDL::Wrench::Zero()] *)
Definition Wrench_Zero : Wrench := {| force := Vector_Zero; torque := Vector_Zero |}.

Definition Vector_add (a b : Vector) : Vector :=
  {| vx := Double.add (vx a) (vx b);
     vy := Double.add (vy a) (vy b);
     vz := Double.add (vz a) (vz b) |}.

(** [Vector * Vector]: the cross product. *)
Definition Vector_cross (a b : Vector) : Vector :=
  {| vx := Double.sub (Double.mul (vy a) (vz b)) (Double.mul (vz a) (vy b));
     vy := Double.sub (Double.mul (vz a) (vx b)) (Double.mul (vx a) (vz b));
     vz := Double.sub (Double.mul (vx a) (vy b)) (Double.mul (vy a) (vx b)) |}.

(** [Rotation * Vector] *)
Definition Rotation_mul (R : Rotation) (v : Vector) : Vector :=
  let dot a b c :=
    Double.add (Double.add (Double.mul a (vx v)) (Double.mul b (vy v)))
               (Double.mul c (vz v)) in
  {| vx := dot (Xx R) (Yx R) (Zx R);
     vy := dot (Xy R) (Yy R) (Zy R);
     vz := dot (Xz R) (Yz R) (Zz R) |}.

(** [Frame * Wrench]: the wrench expressed in, and moved to the origin of,
    the target frame. *)
Definition Frame_mul_Wrench (T : Frame) (w : Wrench) : Wrench :=
  let f := Rotation_mul (M T) (force w) in
  {| force := f;
     torque := Vector_add (Rotation_mul (M T) (torque w)) (Vector_cross (p T) f) |}.

(** [Rotation::Quaternion(x, y, z, w)] *)
Definition Rotation_Quaternion (x y z w : double) : Rotation :=
  let two := Double.of_Z 2 in
  let x2 := Double.mul x x in
  let y2 := Double.mul y y in
  let z2 := Double.mul z z in
  let w2 := Double.mul w w in
  let m2 a b := Double.mul (Double.mul two a) b in
  {| Xx := Double.sub (Double.sub (Double.add w2 x2) y2) z2;
     Yx := Double.sub (m2 x y) (m2 w z);
     Zx := Double.add (m2 x z) (m2 w y);
     Xy := Double.add (m2 x y) (m2 w z);
     Yy := Double.sub (Double.add (Double.sub w2 x2) y2) z2;
     Zy := Double.sub (m2 y z) (m2 w x);
     Xz := Double.sub (m2 x z) (m2 w y);
     Yz := Double.add (m2 y z) (m2 w x);
     Zz := Double.add (Double.sub (Double.sub w2 x2) y2) z2 |}.

End KDL.

Module Eigen.

(** [Eigen::Matrix<double, 6, 1>] *)
Record Vector6d : Type := {
  c0 : double; c1 : double; c2 : double; c3 : double; c4 : double; c5 : double
}.

(** [Eigen::MatrixXd]: run-time dimensions, and the coefficient [M(i, j)]
    for every index within them. *)
Record MatrixXd : Type := { rows : Z; cols : Z; coeff : nat -> nat -> double }.

Definition row6 (M : MatrixXd) (i : nat) : Vector6d :=
  {| c0 := coeff M i 0; c1 := coeff M i 1; c2 := coeff M i 2;
     c3 := coeff M i 3; c4 := coeff M i 4; c5 := coeff M i 5 |}.

Definition dot6 (r w : Vector6d) : double :=
  let t k := Double.mul (k r) (k w) in
  Double.add (Double.add (Double.add (Double.add (Double.add
    (t c0) (t c1)) (t c2)) (t c3)) (t c4)) (t c5).

(** [M * w] assigned to a fixed 6-vector.  Every coefficient is the sum
    over [j] of [M(i,j) * w(j)]; a product whose dimensions do not fit
    reads outside the matrix. *)
Definition MatrixXd_mul (M : MatrixXd) (w : Vector6d) : outcome Vector6d :=
  if (rows M =? 6)%Z && (cols M =? 6)%Z then
    Returned {| c0 := dot6 (row6 M 0) w; c1 := dot6 (row6 M 1) w;
                c2 := dot6 (row6 M 2) w; c3 := dot6 (row6 M 3) w;
                c4 := dot6 (row6 M 4) w; c5 := dot6 (row6 M 5) w |}
  else OutOfRange.

End Eigen.

(** The [tf] and [eigen_conversions] helpers the manager calls. *)
Module tf.

Definition poseMsgToKDL (m : geometry_msgs.Pose) : KDL.Frame :=
  let q := geometry_msgs.orientation m in
  let t := geometry_msgs.pose_position m in
  {| KDL.p := {| KDL.vx := geometry_msgs.x t; KDL.vy := geometry_msgs.y t;
                 KDL.vz := geometry_msgs.z t |};
     KDL.M := KDL.Rotation_Quaternion (geometry_msgs.qx q) (geometry_msgs.qy q)
                (geometry_msgs.qz q) (geometry_msgs.qw q) |}.

Definition wrenchMsgToEigen (m : geometry_msgs.Wrench) : Eigen.Vector6d :=
  let f := geometry_msgs.force m in
  let t := geometry_msgs.torque m in
  {| Eigen.c0 := geometry_msgs.x f; Eigen.c1 := geometry_msgs.y f;
     Eigen.c2 := geometry_msgs.z f; Eigen.c3 := geometry_msgs.x t;
     Eigen.c4 := geometry_msgs.y t; Eigen.c5 := geometry_msgs.z t |}.

Definition wrenchEigenToKDL (e : Eigen.Vector6d) : KDL.Wrench :=
  {| KDL.force := {| KDL.vx := Eigen.c0 e; KDL.vy := Eigen.c1 e; KDL.vz := Eigen.c2 e |};
     KDL.torque := {| KDL.vx := Eigen.c3 e; KDL.vy := Eigen.c4 e; KDL.vz := Eigen.c5 e |} |}.

Definition wrenchKDLToEigen (k : KDL.Wrench) : Eigen.Vector6d :=
  {| Eigen.c0 := KDL.vx (KDL.force k); Eigen.c1 := KDL.vy (KDL.force k);
     Eigen.c2 := KDL.vz (KDL.force k); Eigen.c3 := KDL.vx (KDL.torque k);
     Eigen.c4 := KDL.vy (KDL.torque k); Eigen.c5 := KDL.vz (KDL.torque k) |}.

Definition wrenchKDLToMsg (k : KDL.Wrench) : geometry_msgs.Wrench :=
  let v (a : KDL.Vector) :=
    {| geometry_msgs.x := KDL.vx a; geometry_msgs.y := KDL.vy a;
       geometry_msgs.z := KDL.vz a |} in
  {| geometry_msgs.force := v (KDL.force k);
     geometry_msgs.torque := v (KDL.torque k) |}.

(** [tf::TransformListener::transformPose(target_frame, in, out)] as the
    manager sees it: the answer to the lookup that comes after [n] earlier
    ones, [None] when a [tf::TransformException] is thrown. *)
Definition TransformListener : Type :=
  nat -> string -> geometry_msgs.PoseStamped -> option geometry_msgs.PoseStamped.

End tf.

(* ------------------------------------------------------------------ *)
(** ** wrench_manager.cpp *)

Module WrenchManager.

(** [ros::Subscriber] and [ros::Publisher] handles, known by their topic. *)
Record Subscriber : Type := { sub_topic : string }.
Record Publisher : Type := { pub_topic : string }.

(** What the manager does towards the outside: console lines, transform
    lookups, sleeps, subscriptions and published messages. *)
Inductive Event : Type :=
| Log (level : Severity) (text : string)
| TransformPose (target_frame : string) (stamped_in : geometry_msgs.PoseStamped)
| Sleep (d : Duration)
| Subscribe (topic : string)
| Advertise (topic : string)
| Publish (topic : string) (msg : geometry_msgs.WrenchStamped).

(** The data members: [manager_index_] comes from [ManagerBase], the others
    are the parallel vectors of [WrenchManager]. *)
Record t : Type := {
  manager_index_ : list string;
  max_tf_attempts_ : Z;
  sensor_frame_ : list string;
  gripping_frame_ : list string;
  sensor_to_gripping_point_ : list KDL.Frame;
  measured_wrench_ : list KDL.Wrench;
  calibration_matrix_ : list Eigen.MatrixXd;
  ft_sub_ : list Subscriber;
  processed_ft_pub_ : list Publisher
}.

Definition set_measured_wrench (w : list KDL.Wrench) (m : t) : t :=
  {| manager_index_ := manager_index_ m;
     max_tf_attempts_ := max_tf_attempts_ m;
     sensor_frame_ := sensor_frame_ m;
     gripping_frame_ := gripping_frame_ m;
     sensor_to_gripping_point_ := sensor_to_gripping_point_ m;
     measured_wrench_ := w;
     calibration_matrix_ := calibration_matrix_ m;
     ft_sub_ := ft_sub_ m;
     processed_ft_pub_ := processed_ft_pub_ m |}.

(** [v[i] = a] on a [std::vector]. *)
Fixpoint assign_at {A : Type} (v : list A) (i : nat) (a : A) : outcome (list A) :=
  match v, i with
  | [], _ => OutOfRange
  | _ :: v', O => Returned (a :: v')
  | b :: v', S i' =>
      match assign_at v' i' a with
      | Returned r => Returned (b :: r)
      | OutOfRange => OutOfRange
      end
  end.

(** The two constructors; [param] is what
    [nh_.getParam("wrench_manager/max_tf_attempts", max_tf_attempts_)]
    finds. *)
Definition empty (attempts : Z) : t :=
  {| manager_index_ := []; max_tf_attempts_ := attempts; sensor_frame_ := [];
     gripping_frame_ := []; sensor_to_gripping_point_ := [];
     measured_wrench_ := []; calibration_matrix_ := []; ft_sub_ := [];
     processed_ft_pub_ := [] |}.

Definition new (param : option Z) : t * list Event :=
  match param with
  | None =>
      (empty 5,
       [Log WARN "WrenchManager: Missing max_tf_attempts parameter, setting default"])
  | Some n => (empty n, [])
  end.

Definition new_nh (param : option Z) : t * list Event :=
  match param with
  | None =>
      (empty 5,
       [Log INFO " I'm here and I do stuff ";
        Log WARN "WrenchManager: Missing max_tf_attempts parameter, setting default"])
  | Some n =>
      (empty n,
       [Log INFO " I'm here and I do stuff "; Log INFO "I got it, max_tf_attempts"])
  end.

(** Modelled from the spec: [ManagerBase::getIndex] is defined outside the
    sources at hand.  End-effector lookup is a linear search of
    [manager_index_] for the key; it yields the index found, or fails. *)
Fixpoint getIndex_from (key : string) (keys : list string) (j : nat) : option nat :=
  match keys with
  | [] => None
  | k :: keys' => if String.eqb k key then Some j else getIndex_from key keys' (S j)
  end.

Definition getIndex (key : string) (m : t) : option nat :=
  getIndex_from key (manager_index_ m) 0.

(** Modelled from the spec: [MatrixParser::parseMatrixData] is defined
    outside the sources at hand.  The calibration configuration maps a key
    to a real matrix, or the key is absent. *)
Definition MatrixParser : Type := string -> option Eigen.MatrixXd.

(** The pose that is handed to the transform listener: the origin of the
    sensor frame. *)
Definition sensor_origin (sensor_frame : string) : geometry_msgs.PoseStamped :=
  {| geometry_msgs.ps_header :=
       {| seq := 0; stamp := {| sec := 0; nsec := 0 |}; frame_id := sensor_frame |};
     geometry_msgs.pose :=
       {| geometry_msgs.pose_position :=
            {| geometry_msgs.x := Double.of_Z 0; geometry_msgs.y := Double.of_Z 0;
               geometry_msgs.z := Double.of_Z 0 |};
          geometry_msgs.orientation :=
            {| geometry_msgs.qx := Double.of_Z 0; geometry_msgs.qy := Double.of_Z 0;
               geometry_msgs.qz := Double.of_Z 0; geometry_msgs.qw := Double.of_Z 1 |} |} |}.

(** The literal [0.1]. *)
Definition one_tenth : double :=
  Eval vm_compute in Double.div (Double.of_Z 1) (Double.of_Z 10).

(** [ros::Duration(0.1)] *)
Definition retry_delay : Duration := {| toSec := one_tenth |}.

(** The retry loop of [initializeWrenchComm], entered with the counter at
    [attempts] and [todo = max_tf_attempts_ - attempts] iterations left (none
    when the bound is not positive).  It yields the counter and the pose at
    the exit of the loop. *)
Fixpoint transform_loop (listener_ : tf.TransformListener)
    (gripping_point_frame : string) (stamped : geometry_msgs.PoseStamped)
    (attempts : Z) (todo : nat)
    : Z * geometry_msgs.PoseStamped * list Event :=
  match todo with
  | O => (attempts, stamped, [])
  | S todo' =>
      let call := TransformPose gripping_point_frame stamped in
      match listener_ (Z.to_nat attempts) gripping_point_frame stamped with
      | Some resolved => (attempts, resolved, [call])
      | None =>
          let '(n, out, evs) :=
            transform_loop listener_ gripping_point_frame stamped
                           (attempts + 1) todo' in
          (n, out,
           call :: Log WARN "TF exception in wrench manager" :: Sleep retry_delay :: evs)
      end
  end.

(** The [push_back]s at the end of a successful registration. *)
Definition add_comm (end_effector sensor_frame gripping_point_frame sensor_topic : string)
    (C : Eigen.MatrixXd) (T : KDL.Frame) (m : t) : t :=
  {| manager_index_ := manager_index_ m ++ [end_effector];
     max_tf_attempts_ := max_tf_attempts_ m;
     sensor_frame_ := sensor_frame_ m ++ [sensor_frame];
     gripping_frame_ := gripping_frame_ m ++ [gripping_point_frame];
     sensor_to_gripping_point_ := sensor_to_gripping_point_ m ++ [T];
     measured_wrench_ := measured_wrench_ m ++ [KDL.Wrench_Zero];
     calibration_matrix_ := calibration_matrix_ m ++ [C];
     ft_sub_ := ft_sub_ m ++ [{| sub_topic := sensor_topic |}];
     processed_ft_pub_ :=
       processed_ft_pub_ m ++ [{| pub_topic := (sensor_topic ++ "_converted")%string |}] |}.

(** [initializeWrenchComm(end_effector, sensor_frame, gripping_point_frame,
    sensor_topic, calib_matrix_param)] *)
Definition initializeWrenchComm (listener_ : tf.TransformListener)
    (parser_ : MatrixParser)
    (end_effector sensor_frame gripping_point_frame sensor_topic
       calib_matrix_param : string)
    (m : t) : bool * t * list Event :=
  match getIndex end_effector m with
  | Some _ =>
      (false, m,
       [Log ERROR ("Cannot initialize wrench subscriber for end-effector "
                   ++ end_effector ++ ": already initialized")])
  | None =>
      let '(attempts, sensor_to_gripping_point, evs) :=
        transform_loop listener_ gripping_point_frame (sensor_origin sensor_frame)
                       0 (Z.to_nat (max_tf_attempts_ m)) in
      if (attempts >=? max_tf_attempts_ m)%Z then
        (false, m,
         evs ++ [Log ERROR ("WrenchManager: could not find the transform between the sensor frame "
                            ++ sensor_frame ++ " and gripping point "
                            ++ gripping_point_frame)])
      else
        match parser_ calib_matrix_param with
        | None =>
            (false, m,
             evs ++ [Log ERROR ("WrenchManager: missing force torque sensor calibration matrix parameter "
                                ++ calib_matrix_param)])
        | Some C =>
            if negb (Eigen.cols C =? 6)%Z || negb (Eigen.rows C =? 6)%Z then
              (false, m,
               evs ++ [Log ERROR "WrenchManager: calibration matrix must be 6x6"])
            else
              let T := tf.poseMsgToKDL (geometry_msgs.pose sensor_to_gripping_point) in
              (true,
               add_comm end_effector sensor_frame gripping_point_frame sensor_topic C T m,
               evs ++ [Subscribe sensor_topic;
                       Advertise (sensor_topic ++ "_converted")])
        end
  end.

(** [wrenchAtGrippingPoint(end_effector, wrench)]: [None] stands for the
    return value [false], which leaves [wrench] alone; [now] is the reading
    of [ros::Time::now()]. *)
Definition wrenchAtGrippingPoint (now : Time) (end_effector : string) (m : t)
    : outcome (option Eigen.Vector6d * list Event) :=
  match getIndex end_effector m with
  | None => Returned (None, [])
  | Some arm =>
      (T <- at_ (sensor_to_gripping_point_ m) arm ;;
       w <- at_ (measured_wrench_ m) arm ;;
       let wrench_kdl := KDL.Frame_mul_Wrench T w in
       let wrench := tf.wrenchKDLToEigen wrench_kdl in
       frame <- at_ (gripping_frame_ m) arm ;;
       pub <- at_ (processed_ft_pub_ m) arm ;;
       let temp_wrench :=
         {| geometry_msgs.ws_header := {| seq := 0; stamp := now; frame_id := frame |};
            geometry_msgs.wrench := tf.wrenchKDLToMsg wrench_kdl |} in
       Returned (Some wrench, [Publish (pub_topic pub) temp_wrench]))%outcome
  end.

(** [wrenchAtSensorPoint(end_effector, wrench)] *)
Definition wrenchAtSensorPoint (end_effector : string) (m : t)
    : outcome (option Eigen.Vector6d) :=
  match getIndex end_effector m with
  | None => Returned None
  | Some arm =>
      (w <- at_ (measured_wrench_ m) arm ;;
       Returned (Some (tf.wrenchKDLToEigen w)))%outcome
  end.

(** The search loop of [forceTorqueCB], at index [i]: the first index whose
    sensor frame is the frame of the message, or [-1]. *)
Fixpoint find_sensor (frame : string) (frames : list string) (i : Z) : Z :=
  match frames with
  | [] => -1
  | f :: frames' =>
      if String.eqb frame f then i else find_sensor frame frames' (i + 1)
  end.

(** [forceTorqueCB(msg)] *)
Definition forceTorqueCB (msg : geometry_msgs.WrenchStamped) (m : t)
    : outcome (t * list Event) :=
  let sensor_num :=
    find_sensor (frame_id (geometry_msgs.ws_header msg)) (sensor_frame_ m) 0 in
  if (sensor_num <? 0)%Z then
    Returned (m, [Log ERROR ("WrenchManager: got wrench message from sensor at frame "
                             ++ frame_id (geometry_msgs.ws_header msg)
                             ++ ", which was not configured in the wrench manager")])
  else
    let wrench_eig := tf.wrenchMsgToEigen (geometry_msgs.wrench msg) in
    (C <- at_ (calibration_matrix_ m) (Z.to_nat sensor_num) ;;
     wrench_eig <- Eigen.MatrixXd_mul C wrench_eig ;;
     measured <- assign_at (measured_wrench_ m) (Z.to_nat sensor_num)
                           (tf.wrenchEigenToKDL wrench_eig) ;;
     Returned (set_measured_wrench measured m, []))%outcome.

(** A manager is reachable when it is what a constructor gives, or what a
    call that returned leaves of a reachable manager.  The two queries are
    [const]. *)
Inductive reachable : t -> Prop :=
| reach_new : forall attempts, reachable (empty attempts)
| reach_init : forall m listener_ parser_ e sf gf st cp,
    reachable m ->
    reachable (snd (fst (initializeWrenchComm listener_ parser_ e sf gf st cp m)))
| reach_sample : forall m msg m' evs,
    reachable m ->
    forceTorqueCB msg m = Returned (m', evs) ->
    reachable m'.

(** The parallel vectors have one entry for every registered end-effector,
    the registered names are pairwise different, and the calibration
    matrices are 6x6. *)
Definition well_formed (m : t) : Prop :=
  List.length (sensor_frame_ m) = List.length (manager_index_ m) /\
  List.length (gripping_frame_ m) = List.length (manager_index_ m) /\
  List.length (sensor_to_gripping_point_ m) = List.length (manager_index_ m) /\
  List.length (measured_wrench_ m) = List.length (manager_index_ m) /\
  List.length (calibration_matrix_ m) = List.length (manager_index_ m) /\
  List.length (ft_sub_ m) = List.length (manager_index_ m) /\
  List.length (processed_ft_pub_ m) = List.length (manager_index_ m) /\
  NoDup (manager_index_ m) /\
  Forall (fun C => Eigen.rows C = 6%Z /\ Eigen.cols C = 6%Z) (calibration_matrix_ m).

(** The transform lookups among the events of a call. *)
Definition is_attempt (e : Event) : bool :=
  match e with TransformPose _ _ => true | _ => false end.

Definition attempts_made (evs : list Event) : nat :=
  List.length (filter is_attempt evs).

(** The events of [k] failed lookups: each is followed by the warning and
    by a sleep of [retry_delay]. *)
Fixpoint failed_attempts (k : nat) (gripping_point_frame : string)
    (stamped : geometry_msgs.PoseStamped) : list Event :=
  match k with
  | O => []
  | S k' =>
      TransformPose gripping_point_frame stamped
      :: Log WARN "TF exception in wrench manager"
      :: Sleep retry_delay
      :: failed_attempts k' gripping_point_frame stamped
  end.

End WrenchManager.

(** [ArmInfo], with the fields that [setWrenchManager] reads. *)
Module ArmInfo.
Record t : Type := {
  name : string;
  kdl_eef_frame : string;
  gripping_frame : string;
  has_ft_sensor : bool;
  sensor_frame : string;
  sensor_topic : string
}.
End ArmInfo.

(** [setWrenchManager(arm_info, manager)] *)
Definition setWrenchManager (listener_ : tf.TransformListener)
    (parser_ : WrenchManager.MatrixParser) (arm_info : ArmInfo.t)
    (manager : WrenchManager.t)
    : bool * WrenchManager.t * list WrenchManager.Event :=
  if ArmInfo.has_ft_sensor arm_info then
    let '(ok, manager', evs) :=
      WrenchManager.initializeWrenchComm listener_ parser_
        (ArmInfo.kdl_eef_frame arm_info) (ArmInfo.sensor_frame arm_info)
        (ArmInfo.gripping_frame arm_info) (ArmInfo.sensor_topic arm_info)
        (ArmInfo.name arm_info ++ "/sensor_calib") manager in
    if negb ok then (false, manager', evs) else (true, manager', evs)
  else
    (true, manager,
     [WrenchManager.Log WARN ("WrenchManager: end-effector "
                              ++ ArmInfo.kdl_eef_frame arm_info
                              ++ " has no F/T sensor.")]).

(* ------------------------------------------------------------------ *)
(** ** Vocabulary of the properties *)

(** The three arrays of a joint state are index-aligned. *)
Definition aligned (s : JointState) : Prop :=
  List.length (position s) = List.length (name s) /\
  List.length (velocity s) = List.length (name s).

(** Every position and every velocity of the state is finite. *)
Definition all_finite (s : JointState) : bool :=
  forallb Double.isfinite (position s) && forallb Double.isfinite (velocity s).

(** For a state whose name array is longer than its position or velocity
    array: every value that is read before the first missing one is finite.
    [k] is the first index at which an array ends; when only the velocity
    array ends there, the position at [k] is read before it. *)
Definition finite_before_gap (s : JointState) : bool :=
  let k := Nat.min (List.length (position s)) (List.length (velocity s)) in
  forallb Double.isfinite (firstn k (position s))
  && forallb Double.isfinite (firstn k (velocity s))
  && match nth_error (position s) k with
     | Some pk => Double.isfinite pk
     | None => true
     end.

(** The sanity loop as a recursion on what is left of the two arrays. *)
Fixpoint scan (ps vs : list double) (todo : nat) {struct todo} : outcome bool :=
  match todo with
  | O => Returned true
  | S todo' =>
      match ps with
      | [] => OutOfRange
      | p :: ps' =>
          if negb (Double.isfinite p) then Returned false
          else match vs with
               | [] => OutOfRange
               | v :: vs' =>
                   if negb (Double.isfinite v) then Returned false
                   else scan ps' vs' todo'
               end
      end
  end.

(** A controller for the examples: the goal says whether it parses, and the
    algorithm commands the joint state kept by the derived class. *)
#[local] Instance replay : Hooks bool unit unit JointState := {|
  controlAlgorithm := fun _ _ p => (derived_ p, p);
  parseGoal := fun g p => (g, p);
  resetController := fun p => p
|}.

Definition joints (names : list string) (ps vs : list double) : JointState :=
  {| js_header := Header_default; name := names; position := ps;
     velocity := vs; effort := [] |}.

Definition replay_idle (ret : JointState) : ControllerTemplate bool unit unit JointState :=
  ControllerTemplate_new "replay" tt tt ret.

Definition replay_active (ret : JointState) : ControllerTemplate bool unit unit JointState :=
  snd (goalCB true (replay_idle ret)).

Definition one : double := Eval vm_compute in Double.of_Z 1.
Definition two : double := Eval vm_compute in Double.of_Z 2.

(** A valid current state of one joint, and algorithm outputs: a sound
    one, one with a NaN velocity, one with a NaN position and no joint
    name, one with two names for a single NaN position, and one with two
    names for a single finite joint. *)
Definition still : JointState := joints ["j1"%string] [one] [two].
Definition sound_cmd : JointState := joints ["j1"%string] [two] [one].
Definition nan_cmd : JointState := joints ["j1"%string] [two] [Double.nan].
Definition unnamed_nan_cmd : JointState := joints [] [Double.nan] [Double.zero].
Definition short_nan_cmd : JointState :=
  joints ["j1"%string; "j2"%string] [Double.nan] [Double.zero].
Definition short_cmd : JointState :=
  joints ["j1"%string; "j2"%string] [two] [one].

Definition fresh_dt : Duration := {| toSec := Double.zero |}.
Definition threshold_dt : Duration := {| toSec := MAX_DT |}.
Definition stale_dt : Duration := {| toSec := one |}.

(** The controllers that can arise: a constructed controller, driven by
    [updateControl] calls that return, by the two callbacks of the action
    server and by the public [resetInternalState]. *)
Section ControllerRuns.

Variables ActionGoal ActionFeedback ActionResult Derived : Type.
Context {hooks : Hooks ActionGoal ActionFeedback ActionResult Derived}.

Inductive arises : ControllerTemplate ActionGoal ActionFeedback ActionResult Derived -> Prop :=
| arises_new : forall action_name feedback0 result0 derived0,
    arises (ControllerTemplate_new action_name feedback0 result0 derived0)
| arises_update : forall c current_state dt cmd c',
    arises c ->
    updateControl current_state dt c = Returned (cmd, c') ->
    arises c'
| arises_goal : forall c goal, arises c -> arises (snd (goalCB goal c))
| arises_preempt : forall c, arises c -> arises (preemptCB c)
| arises_reset : forall c, arises c -> arises (resetInternalState c).

End ControllerRuns.

(** What [lastState] caches for a valid current state. *)
Definition seeded (current : JointState) : JointState :=
  set_velocity (map (fun _ => Double.zero) (velocity current)) current.

(** A controller for the examples whose algorithm completes the goal in the
    call: it commands the joint state kept by the derived class and sets the
    goal succeeded. *)
Definition finishing : Hooks bool unit unit JointState := {|
  controlAlgorithm := fun _ _ p =>
    (derived_ p,
     set_action_server
       (ActionServer.setSucceeded (result_ p) (action_server_ p)) p);
  parseGoal := fun g p => (g, p);
  resetController := fun p => p
|}.

Definition finishing_active (ret : JointState)
    : ControllerTemplate bool unit unit JointState :=
  snd (goalCB (hooks := finishing) true
         (ControllerTemplate_new "finishing" tt tt ret)).

(** Managers for the examples. *)
Module WrenchExample.
Import WrenchManager.

Definition identity6 : Eigen.MatrixXd :=
  {| Eigen.rows := 6; Eigen.cols := 6;
     Eigen.coeff := fun i j => if Nat.eqb i j then one else Double.zero |}.

Definition narrow : Eigen.MatrixXd :=
  {| Eigen.rows := 6; Eigen.cols := 5; Eigen.coeff := fun _ _ => Double.zero |}.

(** A listener for which the two frames coincide, one that never resolves,
    and one that resolves at the third lookup. *)
Definition resolves : tf.TransformListener :=
  fun _ target stamped =>
    Some {| geometry_msgs.ps_header :=
              {| seq := 0; stamp := {| sec := 0; nsec := 0 |}; frame_id := target |};
            geometry_msgs.pose := geometry_msgs.pose stamped |}.

Definition never_resolves : tf.TransformListener := fun _ _ _ => None.

Definition resolves_third : tf.TransformListener :=
  fun n target stamped => if Nat.ltb n 2 then None else resolves n target stamped.

Definition calibrated : MatrixParser := fun _ => Some identity6.
Definition miscalibrated : MatrixParser := fun _ => Some narrow.

Definition one_arm : t :=
  snd (fst (initializeWrenchComm resolves calibrated "left_arm" "left_sensor"
              "left_grip" "left_ft" "left/sensor_calib" (empty 5))).

(** A second end-effector registered on the sensor frame of the first. *)
Definition two_arms_one_sensor : t :=
  snd (fst (initializeWrenchComm resolves calibrated "right_arm" "left_sensor"
              "right_grip" "right_ft" "right/sensor_calib" one_arm)).

Definition raw_wrench : geometry_msgs.Wrench :=
  {| geometry_msgs.force :=
       {| geometry_msgs.x := Double.of_Z 1; geometry_msgs.y := Double.of_Z 2;
          geometry_msgs.z := Double.of_Z 3 |};
     geometry_msgs.torque :=
       {| geometry_msgs.x := Double.of_Z 4; geometry_msgs.y := Double.of_Z 5;
          geometry_msgs.z := Double.of_Z 6 |} |}.

Definition sample : geometry_msgs.WrenchStamped :=
  {| geometry_msgs.ws_header :=
       {| seq := 0; stamp := {| sec := 0; nsec := 0 |}; frame_id := "left_sensor" |};
     geometry_msgs.wrench := raw_wrench |}.

Definition noon : Time := {| sec := 43200; nsec := 0 |}.

End WrenchExample.

(** Further samples, managers and arms for the examples. *)
Module WrenchExample2.
Import WrenchManager WrenchExample.

(** A sample of a frame that [one_arm] does not know, and a later sample of
    the frame it knows. *)
Definition stray_sample : geometry_msgs.WrenchStamped :=
  {| geometry_msgs.ws_header :=
       {| seq := 0; stamp := {| sec := 0; nsec := 0 |}; frame_id := "right_sensor" |};
     geometry_msgs.wrench := raw_wrench |}.

Definition later_sample : geometry_msgs.WrenchStamped :=
  {| geometry_msgs.ws_header :=
       {| seq := 1; stamp := {| sec := 1; nsec := 0 |}; frame_id := "left_sensor" |};
     geometry_msgs.wrench :=
       {| geometry_msgs.force := geometry_msgs.torque raw_wrench;
          geometry_msgs.torque := geometry_msgs.force raw_wrench |} |}.

(** [one_arm] with the raw wrench as cached wrench. *)
Definition one_arm_loaded : t :=
  set_measured_wrench [tf.wrenchEigenToKDL (tf.wrenchMsgToEigen raw_wrench)] one_arm.

Definition right_arm_info : ArmInfo.t :=
  {| ArmInfo.name := "right"; ArmInfo.kdl_eef_frame := "right_arm";
     ArmInfo.gripping_frame := "right_grip"; ArmInfo.has_ft_sensor := true;
     ArmInfo.sensor_frame := "right_sensor"; ArmInfo.sensor_topic := "right_ft" |}.

Definition bare_arm_info : ArmInfo.t :=
  {| ArmInfo.name := "bare"; ArmInfo.kdl_eef_frame := "bare_arm";
     ArmInfo.gripping_frame := "bare_grip"; ArmInfo.has_ft_sensor := false;
     ArmInfo.sensor_frame := ""; ArmInfo.sensor_topic := "" |}.

End WrenchExample2.


(* ------------------------------------------------------------------ *)
(** * The sanity loop *)

Lemma nth_error_skipn_hd {A : Type} (l : list A) (i : nat) :
  nth_error l i = hd_error (skipn i l).
Proof.
  revert l; induction i as [|i IH]; intros [|a l]; cbn; auto.
Qed.

Lemma skipn_S_tl {A : Type} (l : list A) (i : nat) :
  skipn (S i) l = tl (skipn i l).
Proof.
  revert l; induction i as [|i IH]; intros [|a l]; try reflexivity.
  change (skipn (S (S i)) (a :: l)) with (skipn (S i) l).
  change (skipn (S i) (a :: l)) with (skipn i l). apply IH.
Qed.

(** The loop run from index [i] is the recursion on the two suffixes. *)
Lemma verify_sanity_scan (ret : JointState) (todo i : nat) :
  verify_sanity ret i todo =
  scan (skipn i (position ret)) (skipn i (velocity ret)) todo.
Proof.
  revert i; induction todo as [|todo IH]; intros i; [reflexivity|].
  cbn [verify_sanity scan]. unfold at_.
  rewrite !nth_error_skipn_hd, IH, !skipn_S_tl.
  destruct (skipn i (position ret)) as [|p ps]; cbn; [reflexivity|].
  destruct (negb (Double.isfinite p)); [reflexivity|].
  destruct (skipn i (velocity ret)) as [|v vs]; reflexivity.
Qed.

(** With enough values in both arrays the loop ends, and tells whether the
    values it has read are all finite. *)
Lemma scan_in_range (ps vs : list double) (todo : nat) :
  todo <= List.length ps -> todo <= List.length vs ->
  scan ps vs todo =
  Returned (forallb Double.isfinite (firstn todo ps)
            && forallb Double.isfinite (firstn todo vs)).
Proof.
  revert ps vs; induction todo as [|todo IH]; intros ps vs Hp Hv; [reflexivity|].
  destruct ps as [|p ps]; [cbn in Hp; lia|].
  destruct vs as [|v vs]; [cbn in Hv; lia|].
  cbn in Hp, Hv. cbn [scan firstn forallb].
  destruct (Double.isfinite p); cbn; [|reflexivity].
  destruct (Double.isfinite v); cbn.
  - apply IH; lia.
  - rewrite andb_false_r. reflexivity.
Qed.

(** With too few values the loop either runs into the missing one, or
    leaves early at a non-finite value met before. *)
Lemma scan_gap (ps vs : list double) (todo : nat) :
  List.length ps < todo \/ List.length vs < todo ->
  scan ps vs todo =
  if forallb Double.isfinite (firstn (Nat.min (List.length ps) (List.length vs)) ps)
     && forallb Double.isfinite (firstn (Nat.min (List.length ps) (List.length vs)) vs)
     && match nth_error ps (Nat.min (List.length ps) (List.length vs)) with
        | Some pk => Double.isfinite pk
        | None => true
        end
  then OutOfRange else Returned false.
Proof.
  revert ps vs; induction todo as [|todo IH]; intros ps vs H; [lia|].
  destruct ps as [|p ps]; [reflexivity|].
  destruct vs as [|v vs].
  - cbn. destruct (Double.isfinite p); reflexivity.
  - cbn [scan List.length Nat.min firstn forallb nth_error].
    destruct (Double.isfinite p); [|reflexivity].
    destruct (Double.isfinite v); [|rewrite andb_false_r; reflexivity].
    cbn [negb andb]. apply IH. cbn in H. lia.
Qed.

(* ------------------------------------------------------------------ *)
(** * Properties of the controller lifecycle *)

Section ControllerProperties.

Variables ActionGoal ActionFeedback ActionResult Derived : Type.
Context {hooks : Hooks ActionGoal ActionFeedback ActionResult Derived}.

Implicit Types (c : ControllerTemplate ActionGoal ActionFeedback ActionResult Derived).
Implicit Types (current : JointState) (dt : Duration).

(** *** [lastState] *)

Lemma lastState_invalid c current :
  position current = [] ->
  lastState current c =
    (last_state_ c, emit (Log WARN "lastState got invalid state") c).
Proof. intros E. unfold lastState. rewrite E. reflexivity. Qed.

Lemma lastState_held c current :
  has_state_ c = true -> fst (lastState current c) = last_state_ c.
Proof.
  intros H. unfold lastState.
  destruct (Nat.eqb _ 0); [reflexivity|]. rewrite H. reflexivity.
Qed.

Lemma lastState_keeps c current :
  prot (snd (lastState current c)) = prot c /\
  acquired_goal_ (snd (lastState current c)) = acquired_goal_ c /\
  action_name_ (snd (lastState current c)) = action_name_ c /\
  exists new, events_ (snd (lastState current c)) = events_ c ++ new /\
              forall s d, ~ In (CallControlAlgorithm s d) new.
Proof.
  unfold lastState. destruct (Nat.eqb _ 0); cbn.
  - repeat split. eexists; split; [reflexivity|].
    intros s d [E|[]]; discriminate.
  - destruct (has_state_ c); cbn; repeat split;
      exists []; rewrite app_nil_r; split; auto.
Qed.

Lemma lastState_value c1 c2 current :
  last_state_ c1 = last_state_ c2 -> has_state_ c1 = has_state_ c2 ->
  fst (lastState current c1) = fst (lastState current c2).
Proof.
  intros L H. unfold lastState.
  destruct (Nat.eqb _ 0); cbn; [assumption|].
  rewrite H. destruct (has_state_ c2); cbn; auto.
Qed.

(** *** The idle branch *)

Lemma updateControl_idle c current dt :
  ActionServer.isActive (action_server_ (prot c)) = false \/ acquired_goal_ c = false ->
  updateControl current dt c = Returned (lastState current c).
Proof.
  intros [H|H]; unfold updateControl; rewrite H; cbn; [reflexivity|].
  rewrite orb_true_r. reflexivity.
Qed.

(** *** The active branch *)

Lemma updateControl_fresh c current dt :
  ActionServer.isActive (action_server_ (prot c)) = true ->
  acquired_goal_ c = true ->
  Double.gt (toSec dt) MAX_DT = false ->
  updateControl current dt c =
    (ok <- verify_sanity (fst (run_algorithm current dt c)) 0
             (List.length (name (fst (run_algorithm current dt c)))) ;;
     if ok then Returned (run_algorithm current dt c)
     else
       Returned (lastState current
                   (emit (Log ERROR ("Invalid joint states in "
                                     ++ action_name_ (snd (run_algorithm current dt c))))
                         (snd (run_algorithm current dt c)))))%outcome.
Proof.
  intros Ha Hg Hd. unfold updateControl. rewrite Ha, Hg, Hd. cbn [negb orb].
  destruct (run_algorithm current dt c) as [ret c2]. reflexivity.
Qed.

Lemma run_algorithm_ret c current dt :
  fst (run_algorithm current dt c) = fst (controlAlgorithm current dt (prot c)).
Proof.
  unfold run_algorithm. cbn.
  destruct (controlAlgorithm current dt (prot c)) as [ret p]. reflexivity.
Qed.

Lemma run_algorithm_events c current dt :
  exists rest,
    events_ (snd (run_algorithm current dt c)) =
    events_ c ++ CallControlAlgorithm current dt :: rest.
Proof.
  unfold run_algorithm. cbn.
  destruct (controlAlgorithm current dt (prot c)) as [ret p]. cbn.
  destruct (negb (ActionServer.active (action_server_ p))); cbn.
  - exists [CallResetController]. rewrite <- app_assoc. reflexivity.
  - exists []. reflexivity.
Qed.

(** When the algorithm leaves the goal active, nothing but the feedback is
    added to what it did, and the private members are as before. *)
Lemma run_algorithm_still_active c current dt :
  ActionServer.isActive
    (action_server_ (snd (controlAlgorithm current dt (prot c)))) = true ->
  let p := snd (controlAlgorithm current dt (prot c)) in
  let c2 := snd (run_algorithm current dt c) in
  action_server_ (prot c2) =
    ActionServer.publishFeedback (feedback_ p) (action_server_ p) /\
  last_state_ c2 = last_state_ c /\ has_state_ c2 = has_state_ c /\
  acquired_goal_ c2 = acquired_goal_ c.
Proof.
  unfold run_algorithm. cbn.
  destruct (controlAlgorithm current dt (prot c)) as [ret p]. cbn.
  intros H. unfold ActionServer.isActive in H. rewrite H. cbn. auto.
Qed.

Lemma publishFeedback_isActive (f : ActionFeedback)
    (s : ActionServer.t ActionGoal ActionFeedback ActionResult) :
  ActionServer.isActive (ActionServer.publishFeedback f s) = ActionServer.isActive s.
Proof. reflexivity. Qed.

Lemma MAX_DT_not_stale : Double.gt MAX_DT MAX_DT = false.
Proof. reflexivity. Qed.

(** C1.  With a goal active and acquired: a [dt] strictly greater than the
    threshold 0.5 aborts the goal and returns what [lastState] yields,
    without a call of the control algorithm; a [dt] equal to the threshold
    calls the algorithm and aborts nothing (a goal the algorithm leaves
    active is still active, with the feedback as the only message). *)
Theorem updateControl_staleness c current dt :
  ActionServer.isActive (action_server_ (prot c)) = true ->
  acquired_goal_ c = true ->
  (Double.gt (toSec dt) MAX_DT = true ->
   exists c' new,
     updateControl current dt c = Returned (fst (lastState current c), c') /\
     action_server_ (prot c') =
       ActionServer.setAborted (result_ (prot c)) (action_server_ (prot c)) /\
     isActive c' = false /\
     derived_ (prot c') = derived_ (prot c) /\
     events_ c' = events_ c ++ new /\
     forall s d, ~ In (CallControlAlgorithm s d) new)
  /\
  (toSec dt = MAX_DT ->
   let out := controlAlgorithm current dt (prot c) in
   match updateControl current dt c with
   | Returned (_, c') =>
       (exists rest, events_ c' = events_ c ++ CallControlAlgorithm current dt :: rest) /\
       (ActionServer.isActive (action_server_ (snd out)) = true ->
        action_server_ (prot c') =
          ActionServer.publishFeedback (feedback_ (snd out)) (action_server_ (snd out)) /\
        isActive c' = true)
   | OutOfRange =>
       verify_sanity (fst out) 0 (List.length (name (fst out))) = OutOfRange
   end).
Proof.
  intros Ha Hg. split.
  - intros Hd. unfold updateControl. rewrite Ha, Hg, Hd. cbn [negb orb].
    set (c1 := on_server _ (emit _ c)).
    destruct (lastState_keeps c1 current) as (Hp & _ & _ & new & Hev & Hno).
    exists (snd (lastState current c1)),
           (Log ERROR (action_name_ c ++
              " did not receive updates for more than 0.5 seconds, aborting") :: new).
    repeat split.
    + rewrite (surjective_pairing (lastState current c1)). do 2 f_equal.
      apply lastState_value; reflexivity.
    + rewrite Hp. reflexivity.
    + unfold isActive. rewrite Hp. reflexivity.
    + rewrite Hp. reflexivity.
    + rewrite Hev. subst c1. cbn. rewrite <- app_assoc. reflexivity.
    + intros s d [E|I]; [discriminate|]. exact (Hno s d I).
  - intros Hd out. rewrite updateControl_fresh; auto.
    2:{ rewrite Hd. apply MAX_DT_not_stale. }
    rewrite run_algorithm_ret. fold out.
    destruct (verify_sanity (fst out) 0 _) as [ok|]; [|reflexivity].
    destruct (run_algorithm_events c current dt) as [rest Hrest].
    pose proof (run_algorithm_still_active c current dt) as Hstill.
    cbn [bind]. destruct ok.
    + destruct (run_algorithm current dt c) as [ret c2]. cbn in *.
      split; [eauto|]. intros Hact. destruct (Hstill Hact) as (Hs & _).
      split; [exact Hs|]. unfold isActive. rewrite Hs.
      rewrite publishFeedback_isActive. subst out. rewrite Hact. reflexivity.
    + set (c3 := emit _ _).
      destruct (lastState_keeps c3 current) as (Hp & _ & _ & new & Hev & _).
      destruct (lastState current c3) as [r c']. cbn in *. split.
      * rewrite Hev. subst c3. cbn. rewrite Hrest.
        rewrite <- !app_assoc. cbn. eauto.
      * intros Hact. destruct (Hstill Hact) as (Hs & _).
        rewrite Hp. subst c3. cbn. split; [exact Hs|].
        unfold isActive. rewrite Hp. cbn [prot emit]. rewrite Hs.
        rewrite publishFeedback_isActive. subst out. rewrite Hact. reflexivity.
Qed.

(** C3, as amended.  With a goal active and acquired, a [dt] that is not
    stale and an algorithm output whose three arrays are index-aligned: if
    some position or velocity is not finite, what [lastState] yields is
    returned in place of the output, the error line is logged and the
    action server is left as the algorithm and the feedback left it (a goal
    the algorithm left active is still active, and then the value returned
    is the one cached before the call); if all are finite, the output of
    the algorithm is returned. *)
Theorem updateControl_sanity c current dt ret c2 :
  ActionServer.isActive (action_server_ (prot c)) = true ->
  acquired_goal_ c = true ->
  Double.gt (toSec dt) MAX_DT = false ->
  run_algorithm current dt c = (ret, c2) ->
  aligned ret ->
  (all_finite ret = false ->
   exists c' more,
     updateControl current dt c = Returned (fst (lastState current c2), c') /\
     action_server_ (prot c') = action_server_ (prot c2) /\
     events_ c' =
       events_ c2 ++ Log ERROR ("Invalid joint states in " ++ action_name_ c) :: more /\
     (ActionServer.isActive
        (action_server_ (snd (controlAlgorithm current dt (prot c)))) = true ->
      isActive c' = true /\
      fst (lastState current c2) = fst (lastState current c)))
  /\
  (all_finite ret = true -> updateControl current dt c = Returned (ret, c2)).
Proof.
  intros Ha Hg Hd Hrun [Hp Hv].
  assert (Hscan : verify_sanity ret 0 (List.length (name ret)) =
                  Returned (all_finite ret)).
  { rewrite verify_sanity_scan. cbn [skipn]. rewrite scan_in_range by lia.
    unfold all_finite. rewrite <- Hp at 1. rewrite <- Hv.
    rewrite !firstn_all. reflexivity. }
  rewrite updateControl_fresh by assumption.
  pose proof (run_algorithm_still_active c current dt) as Hstill.
  rewrite Hrun in *. cbn [fst snd] in *. rewrite Hscan. cbn [bind].
  split; intros Hfin; rewrite Hfin; [|reflexivity].
  set (c3 := emit _ c2).
  destruct (lastState_keeps c3 current) as (Hp3 & _ & _ & new & Hev & _).
  assert (Hname : action_name_ c2 = action_name_ c).
  { clear - Hrun. unfold run_algorithm in Hrun. cbn in Hrun.
    destruct (controlAlgorithm current dt (prot c)) as [r p]. cbn in Hrun.
    inversion Hrun; subst. destruct (negb _); reflexivity. }
  exists (snd (lastState current c3)), new. repeat split.
  - rewrite (surjective_pairing (lastState current c3)). do 2 f_equal.
    apply lastState_value; reflexivity.
  - rewrite Hp3. reflexivity.
  - rewrite Hev. subst c3. cbn. rewrite <- app_assoc, Hname. reflexivity.
  - unfold isActive. rewrite Hp3. subst c3. cbn [prot emit].
    destruct (Hstill H) as (Hs & _). rewrite Hs, publishFeedback_isActive, H.
    reflexivity.
  - destruct (Hstill H) as (_ & Hl & Hh & _). apply lastState_value; assumption.
Qed.

(** C10, as amended.  With a goal active and acquired and a [dt] that is not
    stale: when the position and velocity arrays of the algorithm output
    are at least as long as its name array, [updateControl] returns; when
    the name array is longer than one of them, the indexing error is
    reached exactly when every value read before the missing one is finite,
    and otherwise the loop leaves early. *)
Theorem updateControl_indexing c current dt ret c2 :
  ActionServer.isActive (action_server_ (prot c)) = true ->
  acquired_goal_ c = true ->
  Double.gt (toSec dt) MAX_DT = false ->
  run_algorithm current dt c = (ret, c2) ->
  (List.length (name ret) <= List.length (position ret) ->
   List.length (name ret) <= List.length (velocity ret) ->
   exists out, updateControl current dt c = Returned out)
  /\
  (List.length (position ret) < List.length (name ret) \/
   List.length (velocity ret) < List.length (name ret) ->
   (updateControl current dt c = OutOfRange <-> finite_before_gap ret = true) /\
   (finite_before_gap ret = false ->
    exists c', updateControl current dt c = Returned (fst (lastState current c2), c'))).
Proof.
  intros Ha Hg Hd Hrun.
  rewrite updateControl_fresh by assumption.
  rewrite Hrun. cbn [fst snd]. rewrite verify_sanity_scan. cbn [skipn]. split.
  - intros Hp Hv. rewrite scan_in_range by assumption. cbn [bind].
    destruct (_ && _); eauto.
  - intros Hgap. rewrite scan_gap by assumption.
    fold (finite_before_gap ret).
    destruct (finite_before_gap ret); cbn [bind].
    + repeat split; auto. discriminate.
    + repeat split; try discriminate.
      intros _. eexists.
      rewrite (surjective_pairing (lastState current (emit _ c2))).
      do 2 f_equal. apply lastState_value; reflexivity.
Qed.

(** *** Goals *)

(** C9.  A goal whose payload fails [parseGoal] is aborted at once:
    [goalCB] returns false, the abort is the last thing sent, [isActive()]
    is false, and the private members are as before; a goal whose payload
    parses sets the acquisition flag. *)
Theorem goalCB_parse c goal :
  let accepted :=
    set_action_server (ActionServer.acceptNewGoal goal (action_server_ (prot c)))
                      (prot c) in
  let parsed := parseGoal goal accepted in
  (fst parsed = false ->
   fst (goalCB goal c) = false /\
   action_server_ (prot (snd (goalCB goal c))) =
     ActionServer.setAborted (result_ (snd parsed)) (action_server_ (snd parsed)) /\
   isActive (snd (goalCB goal c)) = false /\
   last_state_ (snd (goalCB goal c)) = last_state_ c /\
   has_state_ (snd (goalCB goal c)) = has_state_ c /\
   acquired_goal_ (snd (goalCB goal c)) = acquired_goal_ c /\
   events_ (snd (goalCB goal c)) = events_ c ++ [CallParseGoal goal])
  /\
  (fst parsed = true ->
   fst (goalCB goal c) = true /\
   acquired_goal_ (snd (goalCB goal c)) = true /\
   last_state_ (snd (goalCB goal c)) = last_state_ c /\
   has_state_ (snd (goalCB goal c)) = has_state_ c).
Proof.
  intros accepted parsed. unfold goalCB. cbn. fold accepted. fold parsed.
  destruct parsed as [ok p]. cbn.
  split; intros ->; cbn; repeat split; reflexivity.
Qed.

(** *** Holding the position while idle *)

Lemma lastState_seeds c current :
  position current <> [] -> has_state_ c = false ->
  lastState current c =
    (set_velocity (map (fun _ => Double.zero) (velocity current)) current,
     set_has_state true
       (set_last_state
          (set_velocity (map (fun _ => Double.zero) (velocity current)) current) c)).
Proof.
  intros Hv Hs. unfold lastState. rewrite Hs.
  destruct (position current); [congruence|]. reflexivity.
Qed.

Lemma lastState_holds c current :
  position current <> [] -> has_state_ c = true ->
  lastState current c = (last_state_ c, c).
Proof.
  intros Hv Hs. unfold lastState. rewrite Hs.
  destruct (position current); [congruence|]. reflexivity.
Qed.

Lemma first_valid_cons (s : JointState) (l : list JointState) :
  first_valid (s :: l) =
  match position s with [] => first_valid l | _ :: _ => Some s end.
Proof. unfold first_valid. cbn. destruct (position s); reflexivity. Qed.

(** The commands of an idle run, from any controller without a goal: the
    cached state once there is one, and before that the stale cache until
    the first valid state is seen, whose seeded copy is commanded from then
    on. *)
Lemma updateControl_run_idle (calls : list (JointState * Duration)) :
  forall c, acquired_goal_ c = false ->
  exists cmds c',
    updateControl_run calls c = Returned (cmds, c') /\
    List.length cmds = List.length calls /\
    forall k cmd, nth_error cmds k = Some cmd ->
      if has_state_ c then cmd = last_state_ c
      else match first_valid (firstn (S k) (map fst calls)) with
           | Some f => cmd = set_velocity (map (fun _ => Double.zero) (velocity f)) f
           | None => cmd = last_state_ c
           end.
Proof.
  induction calls as [|[current dt] calls IH]; intros c Hg.
  - exists [], c. repeat split. intros [|k] cmd E; discriminate.
  - cbn [updateControl_run]. rewrite updateControl_idle by auto. cbn [bind].
    destruct (lastState_keeps c current) as (_ & Hg1 & _).
    destruct (lastState current c) as [cmd0 c1] eqn:Els. cbn [snd] in Hg1.
    destruct (IH c1) as (cmds & c' & Hrun & Hlen & Hcmds); [congruence|].
    rewrite Hrun. cbn [bind]. exists (cmd0 :: cmds), c'.
    split; [reflexivity|]. split; [cbn; lia|].
    assert (Hmap : forall k, firstn (S k) (map fst ((current, dt) :: calls)) =
                             current :: firstn k (map fst calls)) by reflexivity.
    destruct (position current) as [|p0 ps] eqn:Epos.
    + rewrite lastState_invalid in Els by assumption. inversion Els; subst.
      cbn [has_state_ last_state_ emit] in Hcmds.
      intros [|k] cmd E; cbn in E.
      * inversion E; subst. destruct (has_state_ c); [reflexivity|].
        rewrite Hmap, first_valid_cons, Epos. reflexivity.
      * specialize (Hcmds k cmd E). destruct (has_state_ c); [assumption|].
        rewrite Hmap, first_valid_cons, Epos. assumption.
    + destruct (has_state_ c) eqn:Ehs.
      * rewrite lastState_holds in Els by congruence. inversion Els; subst.
        rewrite Ehs in Hcmds.
        intros [|k] cmd E; cbn in E; [inversion E; reflexivity|eauto].
      * rewrite lastState_seeds in Els by congruence. inversion Els; subst.
        cbn [has_state_ last_state_ set_has_state set_last_state] in Hcmds.
        intros k cmd E. rewrite Hmap, first_valid_cons, Epos.
        destruct k as [|k]; cbn in E; [inversion E; reflexivity|eauto].
Qed.

(** C2.  In a run of [updateControl] calls on a controller that never
    accepted a goal, every command has all-zero velocity, and its position
    is the position of the first valid current state seen so far; a call
    with an invalid (empty) current state returns the cached state as it is
    and leaves it unchanged. *)
Theorem idle_hold (action_name : string) (feedback0 : ActionFeedback)
    (result0 : ActionResult) (derived0 : Derived)
    (calls : list (JointState * Duration)) :
  (exists cmds c',
     updateControl_run calls
       (ControllerTemplate_new action_name feedback0 result0 derived0)
     = Returned (cmds, c') /\
     List.length cmds = List.length calls /\
     forall k cmd, nth_error cmds k = Some cmd ->
       Forall (fun v => v = Double.zero) (velocity cmd) /\
       forall f, first_valid (firstn (S k) (map fst calls)) = Some f ->
                 position cmd = position f)
  /\
  (forall c current dt,
     ActionServer.isActive (action_server_ (prot c)) = false \/
     acquired_goal_ c = false ->
     position current = [] ->
     exists c',
       updateControl current dt c = Returned (last_state_ c, c') /\
       last_state_ c' = last_state_ c /\ has_state_ c' = has_state_ c).
Proof.
  split.
  - destruct (updateControl_run_idle calls
                (ControllerTemplate_new action_name feedback0 result0 derived0))
      as (cmds & c' & Hrun & Hlen & Hcmds); [reflexivity|].
    exists cmds, c'. split; [assumption|]. split; [assumption|].
    intros k cmd E. specialize (Hcmds k cmd E).
    change (has_state_ (ControllerTemplate_new action_name feedback0 result0 derived0))
      with false in Hcmds.
    change (last_state_ (ControllerTemplate_new action_name feedback0 result0 derived0))
      with JointState_default in Hcmds.
    cbv iota in Hcmds.
    destruct (first_valid (firstn (S k) (map fst calls))) as [f|]; subst cmd.
    + split.
      * cbn [velocity set_velocity]. apply Forall_forall. intros v Hin.
        apply in_map_iff in Hin. destruct Hin as (? & ? & ?). congruence.
      * intros f' Hf. inversion Hf; subst. reflexivity.
    + split; [constructor|]. intros f' Hf. discriminate.
  - intros c current dt Hidle Hpos.
    rewrite updateControl_idle, lastState_invalid by assumption.
    eexists. repeat split.
Qed.

End ControllerProperties.

(** *** The controller properties at concrete controllers *)

Lemma updateControl_staleness_witness :
  ActionServer.isActive (action_server_ (prot (replay_active sound_cmd))) = true /\
  acquired_goal_ (replay_active sound_cmd) = true /\
  Double.gt (toSec stale_dt) MAX_DT = true /\
  toSec threshold_dt = MAX_DT /\
  (exists c',
     updateControl still stale_dt (replay_active sound_cmd)
     = Returned (fst (lastState still (replay_active sound_cmd)), c') /\
     isActive c' = false) /\
  match updateControl still threshold_dt (replay_active sound_cmd) with
  | Returned (_, c') =>
      exists rest,
        events_ c' =
        events_ (replay_active sound_cmd)
        ++ CallControlAlgorithm still threshold_dt :: rest
  | OutOfRange => True
  end.
Proof.
  pose proof (updateControl_staleness (replay_active sound_cmd) still stale_dt
                eq_refl eq_refl) as Hstale.
  pose proof (updateControl_staleness (replay_active sound_cmd) still threshold_dt
                eq_refl eq_refl) as Hedge.
  repeat split.
  - destruct (proj1 Hstale eq_refl) as (c' & new & H1 & _ & H3 & _).
    exists c'. split; assumption.
  - pose proof (proj2 Hedge eq_refl) as H. cbv zeta in H.
    destruct (updateControl still threshold_dt (replay_active sound_cmd)) as [[r c']|].
    + exact (proj1 H).
    + exact I.
Defined.

Lemma updateControl_sanity_witness :
  exists c',
    updateControl still fresh_dt (replay_active nan_cmd)
    = Returned (fst (lastState still (snd (run_algorithm still fresh_dt
                                             (replay_active nan_cmd)))), c') /\
    isActive c' = true.
Proof.
  assert (Hrun : run_algorithm still fresh_dt (replay_active nan_cmd)
                 = (nan_cmd, snd (run_algorithm still fresh_dt (replay_active nan_cmd))))
    by reflexivity.
  destruct (proj1 (updateControl_sanity (replay_active nan_cmd) still fresh_dt
                     eq_refl eq_refl eq_refl Hrun (conj eq_refl eq_refl))
                  eq_refl)
    as (c' & more & H1 & _ & _ & H4).
  exists c'. split; [exact H1|]. exact (proj1 (H4 eq_refl)).
Defined.

(** C3, as stated, fails.  An output without joint names is not looked at:
    its NaN position is returned as the command, not the cached state. *)
Lemma updateControl_sanity_counterexample :
  ActionServer.isActive (action_server_ (prot (replay_active unnamed_nan_cmd))) = true /\
  acquired_goal_ (replay_active unnamed_nan_cmd) = true /\
  Double.gt (toSec fresh_dt) MAX_DT = false /\
  fst (controlAlgorithm still fresh_dt (prot (replay_active unnamed_nan_cmd)))
  = unnamed_nan_cmd /\
  Exists (fun v => Double.isfinite v = false) (position unnamed_nan_cmd) /\
  exists c',
    updateControl still fresh_dt (replay_active unnamed_nan_cmd)
    = Returned (unnamed_nan_cmd, c') /\
    fst (lastState still c') <> unnamed_nan_cmd.
Proof.
  repeat split.
  - constructor. reflexivity.
  - eexists. split; [reflexivity|]. cbv. discriminate.
Qed.

Lemma updateControl_indexing_witness :
  updateControl still fresh_dt (replay_active short_cmd) = OutOfRange.
Proof.
  assert (Hrun : run_algorithm still fresh_dt (replay_active short_cmd)
                 = (short_cmd, snd (run_algorithm still fresh_dt (replay_active short_cmd))))
    by reflexivity.
  apply (proj2 (updateControl_indexing (replay_active short_cmd) still fresh_dt
                  eq_refl eq_refl eq_refl Hrun)).
  - left. cbn. lia.
  - reflexivity.
Defined.

(** C10, as stated, fails.  The name array is longer than the position
    array, and yet no indexing error is reached: the NaN at index 0 ends
    the loop before index 1 is read. *)
Lemma updateControl_indexing_counterexample :
  ActionServer.isActive (action_server_ (prot (replay_active short_nan_cmd))) = true /\
  acquired_goal_ (replay_active short_nan_cmd) = true /\
  Double.gt (toSec fresh_dt) MAX_DT = false /\
  fst (controlAlgorithm still fresh_dt (prot (replay_active short_nan_cmd)))
  = short_nan_cmd /\
  List.length (position short_nan_cmd) < List.length (name short_nan_cmd) /\
  verify_sanity short_nan_cmd 0 (List.length (name short_nan_cmd)) = Returned false /\
  updateControl still fresh_dt (replay_active short_nan_cmd) <> OutOfRange.
Proof.
  repeat split.
  - cbn. lia.
  - cbv. discriminate.
Qed.

Lemma goalCB_parse_witness :
  fst (goalCB false (replay_idle sound_cmd)) = false /\
  isActive (snd (goalCB false (replay_idle sound_cmd))) = false /\
  acquired_goal_ (snd (goalCB true (replay_idle sound_cmd))) = true.
Proof.
  pose proof (goalCB_parse (replay_idle sound_cmd) false) as Hbad.
  pose proof (goalCB_parse (replay_idle sound_cmd) true) as Hgood.
  cbv zeta in Hbad, Hgood.
  destruct (proj1 Hbad eq_refl) as (H1 & _ & H3 & _).
  destruct (proj2 Hgood eq_refl) as (_ & H5 & _).
  repeat split; assumption.
Defined.

Lemma idle_hold_witness :
  exists cmds c',
    updateControl_run
      [(JointState_default, fresh_dt); (still, stale_dt); (sound_cmd, fresh_dt)]
      (replay_idle sound_cmd)
    = Returned (cmds, c') /\
    forall cmd, nth_error cmds 2 = Some cmd -> position cmd = position still.
Proof.
  destruct (proj1 (idle_hold (hooks := replay) "replay" tt tt sound_cmd
              [(JointState_default, fresh_dt); (still, stale_dt); (sound_cmd, fresh_dt)]))
    as (cmds & c' & Hrun & _ & Hcmds).
  exists cmds, c'. split; [exact Hrun|].
  intros cmd E. exact (proj2 (Hcmds 2 cmd E) still eq_refl).
Defined.

(* ------------------------------------------------------------------ *)
(** * Further properties of the controller lifecycle *)

Section ControllerLifecycle.

Variables ActionGoal ActionFeedback ActionResult Derived : Type.
Context {hooks : Hooks ActionGoal ActionFeedback ActionResult Derived}.

Implicit Types (c : ControllerTemplate ActionGoal ActionFeedback ActionResult Derived).
Implicit Types (current : JointState) (dt : Duration).

(** The three ways [lastState] can go. *)
Lemma lastState_cases c current :
  (position current = [] /\
   lastState current c
   = (last_state_ c, emit (Log WARN "lastState got invalid state") c))
  \/
  (position current <> [] /\ has_state_ c = true /\
   lastState current c = (last_state_ c, c))
  \/
  (position current <> [] /\ has_state_ c = false /\
   lastState current c
   = (seeded current, set_has_state true (set_last_state (seeded current) c))).
Proof.
  destruct (position current) as [|p0 ps] eqn:E.
  - left. split; [reflexivity|]. apply lastState_invalid. exact E.
  - right. destruct (has_state_ c) eqn:H.
    + left. split; [discriminate|]. split; [reflexivity|].
      apply lastState_holds; congruence.
    + right. split; [discriminate|]. split; [reflexivity|].
      apply lastState_seeds; congruence.
Qed.

(** [lastState] either keeps the cache, or replaces it by the valid current
    state with zeroed velocities; what it returns is the cache it leaves. *)
Lemma lastState_cache c current :
  fst (lastState current c) = last_state_ (snd (lastState current c)) /\
  ((last_state_ (snd (lastState current c)) = last_state_ c /\
    has_state_ (snd (lastState current c)) = has_state_ c)
   \/
   (position current <> [] /\
    last_state_ (snd (lastState current c)) = seeded current /\
    has_state_ (snd (lastState current c)) = true)).
Proof.
  destruct (lastState_cases c current)
    as [(_ & ->)|[(_ & _ & ->)|(Hv & _ & ->)]]; cbn; auto.
Qed.

(** The algorithm call leaves the cache alone; the flags are as before, or
    both cleared. *)
Lemma run_algorithm_private c current dt :
  last_state_ (snd (run_algorithm current dt c)) = last_state_ c /\
  action_name_ (snd (run_algorithm current dt c)) = action_name_ c /\
  ((has_state_ (snd (run_algorithm current dt c)) = has_state_ c /\
    acquired_goal_ (snd (run_algorithm current dt c)) = acquired_goal_ c)
   \/
   (has_state_ (snd (run_algorithm current dt c)) = false /\
    acquired_goal_ (snd (run_algorithm current dt c)) = false)).
Proof.
  unfold run_algorithm. cbn.
  destruct (controlAlgorithm current dt (prot c)) as [ret p]. cbn.
  destruct (negb (ActionServer.active (action_server_ p))); cbn; auto.
Qed.

(** Whatever branch [updateControl] takes, the cache it leaves is the one
    it found or the seeded current state. *)
Lemma updateControl_cache c current dt cmd c' :
  updateControl current dt c = Returned (cmd, c') ->
  (last_state_ c' = last_state_ c /\ (has_state_ c' = true -> has_state_ c = true))
  \/
  (position current <> [] /\ last_state_ c' = seeded current /\ has_state_ c' = true).
Proof.
  unfold updateControl.
  assert (Hls : forall c0 r c1,
            last_state_ c0 = last_state_ c ->
            (has_state_ c0 = true -> has_state_ c = true) ->
            Returned (lastState current c0) = Returned (r, c1) ->
            (last_state_ c1 = last_state_ c /\ (has_state_ c1 = true -> has_state_ c = true))
            \/
            (position current <> [] /\ last_state_ c1 = seeded current /\
             has_state_ c1 = true)).
  { intros c0 r c1 Hl Hh E. inversion E as [E'].
    destruct (lastState_cache c0 current) as (_ & [[Hl1 Hh1]|Hseed]).
    - left. rewrite E' in *. cbn in *. split; [congruence|].
      intros H. apply Hh. congruence.
    - right. rewrite E' in *. exact Hseed. }
  destruct (negb _ || negb _).
  - apply Hls; auto.
  - destruct (Double.gt (toSec dt) MAX_DT).
    + apply Hls; auto.
    + destruct (run_algorithm_private c current dt) as (Hl & _ & Hflags).
      destruct (run_algorithm current dt c) as [ret c2]. cbn [snd] in *.
      assert (Hh2 : has_state_ c2 = true -> has_state_ c = true).
      { destruct Hflags as [[-> _]|[-> _]]; [auto|discriminate]. }
      destruct (verify_sanity ret 0 _) as [[|]|]; cbn [bind]; intros E;
        [|apply (Hls (emit (Log ERROR ("Invalid joint states in " ++ action_name_ c2)) c2)
                     cmd c'); auto|discriminate].
      inversion E; subst. left. auto.
Qed.

(** X1.  After a preemption both flags are cleared, the preemption has been
    sent with the result and [resetController] has run on what followed; the
    next [updateControl] call with a valid current state commands that
    state with zeroed velocities, whatever [dt] is, and does not call the
    control algorithm. *)
Theorem preemptCB_then_hold c current dt :
  position current <> [] ->
  has_state_ (preemptCB c) = false /\
  acquired_goal_ (preemptCB c) = false /\
  last_state_ (preemptCB c) = last_state_ c /\
  prot (preemptCB c) =
    resetController
      (set_action_server
         (ActionServer.setPreempted (result_ (prot c)) (action_server_ (prot c)))
         (prot c)) /\
  exists c',
    updateControl current dt (preemptCB c) = Returned (seeded current, c') /\
    last_state_ c' = seeded current /\ has_state_ c' = true /\
    prot c' = prot (preemptCB c) /\
    events_ c' = events_ (preemptCB c).
Proof.
  intros Hv. repeat split.
  rewrite updateControl_idle by (right; reflexivity).
  rewrite lastState_seeds by (auto; reflexivity).
  eexists. repeat split.
Qed.

(** X2.  When the control algorithm ends the goal during the call and its
    output is index-aligned and finite, [updateControl] returns that
    output, has cleared both flags and has called [resetController] once,
    after the feedback; the next call then commands the state measured at
    that call, with zeroed velocities. *)
Theorem updateControl_goal_completed c current dt :
  ActionServer.isActive (action_server_ (prot c)) = true ->
  acquired_goal_ c = true ->
  Double.gt (toSec dt) MAX_DT = false ->
  ActionServer.isActive
    (action_server_ (snd (controlAlgorithm current dt (prot c)))) = false ->
  aligned (fst (controlAlgorithm current dt (prot c))) ->
  all_finite (fst (controlAlgorithm current dt (prot c))) = true ->
  let ret := fst (controlAlgorithm current dt (prot c)) in
  let p := snd (controlAlgorithm current dt (prot c)) in
  exists c',
    updateControl current dt c = Returned (ret, c') /\
    has_state_ c' = false /\ acquired_goal_ c' = false /\
    last_state_ c' = last_state_ c /\
    prot c' =
      resetController
        (set_action_server
           (ActionServer.publishFeedback (feedback_ p) (action_server_ p)) p) /\
    events_ c' =
      events_ c ++ [CallControlAlgorithm current dt; CallResetController] /\
    forall next dt',
      position next <> [] ->
      exists c'', updateControl next dt' c' = Returned (seeded next, c'').
Proof.
  intros Ha Hg Hd Hdone [Hp Hv] Hfin ret p.
  assert (Hrun : run_algorithm current dt c =
                 (ret,
                  resetInternalState
                    (on_server (ActionServer.publishFeedback (feedback_ p))
                       (set_prot p (emit (CallControlAlgorithm current dt) c))))).
  { unfold run_algorithm. cbn. subst ret p.
    destruct (controlAlgorithm current dt (prot c)) as [r q]. cbn in *.
    unfold ActionServer.isActive in Hdone. rewrite Hdone. reflexivity. }
  rewrite updateControl_fresh by assumption. rewrite Hrun. cbn [fst snd].
  rewrite verify_sanity_scan. cbn [skipn]. rewrite scan_in_range by (subst ret; lia).
  fold ret. replace (forallb _ _ && forallb _ _) with true.
  2:{ symmetry. unfold all_finite in Hfin. fold ret in Hfin, Hp, Hv.
      rewrite <- Hp at 1. rewrite <- Hv. rewrite !firstn_all. exact Hfin. }
  cbn [bind]. eexists. split; [reflexivity|]. cbn.
  repeat split.
  - rewrite <- app_assoc. reflexivity.
  - intros next dt' Hn. rewrite updateControl_idle by (right; reflexivity).
    rewrite lastState_seeds by (auto; reflexivity). eauto.
Qed.

(** X3.  [updateControl] never stores the command of the algorithm: the
    cache it leaves is the cache it found, or the current state of the call
    with zeroed velocities (and then the current state is valid). *)
Theorem updateControl_cache_is_measured c current dt cmd c' :
  updateControl current dt c = Returned (cmd, c') ->
  last_state_ c' = last_state_ c \/
  (position current <> [] /\ last_state_ c' = seeded current /\ has_state_ c' = true).
Proof.
  intros H. destruct (updateControl_cache _ _ _ H) as [[Hl _]|Hs]; auto.
Qed.

Lemma goalCB_private c (goal : ActionGoal) :
  last_state_ (snd (goalCB goal c)) = last_state_ c /\
  has_state_ (snd (goalCB goal c)) = has_state_ c.
Proof.
  unfold goalCB. cbn.
  destruct (parseGoal goal _) as [[|] p]; cbn; auto.
Qed.

(** The cache of a controller that arises has zero velocities, and when the
    controller has a state the cache is a valid one. *)
Lemma arises_cache c :
  arises c ->
  Forall (fun v => v = Double.zero) (velocity (last_state_ c)) /\
  (has_state_ c = true -> position (last_state_ c) <> []).
Proof.
  assert (Hseed : forall s, Forall (fun v => v = Double.zero) (velocity (seeded s))).
  { intros s. cbn. apply Forall_forall. intros v Hin.
    apply in_map_iff in Hin. destruct Hin as (? & ? & ?). congruence. }
  induction 1 as [n f r d|c current dt cmd c' Hc IH Hu|c goal Hc IH|c Hc IH|c Hc IH].
  - split; [constructor|discriminate].
  - destruct IH as [IHv IHp].
    destruct (updateControl_cache _ _ _ Hu) as [[Hl Hh]|(Hv & Hl & _)]; rewrite Hl.
    + split; auto.
    + split; [apply Hseed|]. intros _. exact Hv.
  - destruct (goalCB_private c goal) as [-> ->]. exact IH.
  - split; [apply IH|discriminate].
  - split; [apply IH|discriminate].
Qed.

(** X4.  On every controller that arises the cached state has all-zero
    velocity, and whenever the controller records that it has a state, the
    cached state is valid (its position array is not empty). *)
Theorem arises_cache_at_rest c :
  arises c ->
  Forall (fun v => v = Double.zero) (velocity (last_state_ c)) /\
  (has_state_ c = true -> position (last_state_ c) <> []).
Proof. exact (@arises_cache c). Qed.

(** X5.  On a controller that arises, a command returned by
    [updateControl] is the output of the control algorithm (called with an
    active, acquired goal and a [dt] that is not stale), or it has all-zero
    velocity. *)
Theorem updateControl_command c current dt cmd c' :
  arises c ->
  updateControl current dt c = Returned (cmd, c') ->
  (ActionServer.isActive (action_server_ (prot c)) = true /\
   acquired_goal_ c = true /\
   Double.gt (toSec dt) MAX_DT = false /\
   cmd = fst (controlAlgorithm current dt (prot c)))
  \/
  Forall (fun v => v = Double.zero) (velocity cmd).
Proof.
  intros Hc Hu.
  assert (Hc' : arises c') by (eapply arises_update; eauto).
  pose proof (proj1 (arises_cache Hc')) as Hrest.
  assert (Hls : forall c0, Returned (lastState current c0) = Returned (cmd, c') ->
                           Forall (fun v => v = Double.zero) (velocity cmd)).
  { intros c0 E. inversion E as [E'].
    pose proof (proj1 (lastState_cache c0 current)) as Hfst.
    rewrite E' in Hfst. cbn in Hfst. subst cmd. exact Hrest. }
  unfold updateControl in Hu.
  destruct (ActionServer.isActive (action_server_ (prot c))) eqn:Ha; cbn in Hu;
    [|right; eapply Hls; eauto].
  destruct (acquired_goal_ c) eqn:Hg; cbn in Hu; [|right; eapply Hls; eauto].
  destruct (Double.gt (toSec dt) MAX_DT) eqn:Hd; [right; eapply Hls; eauto|].
  pose proof (run_algorithm_ret c current dt) as Hret.
  destruct (run_algorithm current dt c) as [ret c2]. cbn [fst] in Hret.
  destruct (verify_sanity ret 0 _) as [[|]|]; cbn [bind] in Hu;
    [|right; eapply Hls; eauto|discriminate].
  inversion Hu; subst. left. auto.
Qed.

(** X6.  [updateControl] reaches the read outside an array only on the
    active path: with a goal active and acquired, a [dt] that is not stale,
    and an algorithm output whose name array is longer than its position or
    velocity array with only finite values before the missing one. *)
Theorem updateControl_out_of_range c current dt :
  updateControl current dt c = OutOfRange <->
  (ActionServer.isActive (action_server_ (prot c)) = true /\
   acquired_goal_ c = true /\
   Double.gt (toSec dt) MAX_DT = false /\
   let ret := fst (controlAlgorithm current dt (prot c)) in
   (List.length (position ret) < List.length (name ret) \/
    List.length (velocity ret) < List.length (name ret)) /\
   finite_before_gap ret = true).
Proof.
  split.
  - intros Hu. unfold updateControl in Hu.
    destruct (ActionServer.isActive (action_server_ (prot c))) eqn:Ha; cbn in Hu;
      [|discriminate].
    destruct (acquired_goal_ c) eqn:Hg; cbn in Hu; [|discriminate].
    destruct (Double.gt (toSec dt) MAX_DT) eqn:Hd; [discriminate|].
    pose proof (run_algorithm_ret c current dt) as Hret.
    destruct (run_algorithm current dt c) as [ret c2]. cbn [fst] in Hret.
    rewrite <- Hret. cbv zeta.
    rewrite verify_sanity_scan in Hu. cbn [skipn] in Hu.
    repeat split.
    + destruct (Nat.le_gt_cases (List.length (name ret)) (List.length (position ret)))
        as [Hp|Hp]; [|auto].
      destruct (Nat.le_gt_cases (List.length (name ret)) (List.length (velocity ret)))
        as [Hv|Hv]; [|auto].
      rewrite scan_in_range in Hu by assumption. cbn [bind] in Hu.
      destruct (_ && _); discriminate.
    + destruct (Nat.le_gt_cases (List.length (name ret)) (List.length (position ret)))
        as [Hp|Hp];
      [destruct (Nat.le_gt_cases (List.length (name ret)) (List.length (velocity ret)))
         as [Hv|Hv]|].
      * rewrite scan_in_range in Hu by assumption. cbn [bind] in Hu.
        destruct (_ && _); discriminate.
      * rewrite scan_gap in Hu by auto. fold (finite_before_gap ret) in Hu.
        destruct (finite_before_gap ret); [reflexivity|discriminate].
      * rewrite scan_gap in Hu by auto. fold (finite_before_gap ret) in Hu.
        destruct (finite_before_gap ret); [reflexivity|discriminate].
  - intros (Ha & Hg & Hd & Hgap & Hfin). cbv zeta in Hgap, Hfin.
    rewrite updateControl_fresh by assumption.
    rewrite run_algorithm_ret, verify_sanity_scan. cbn [skipn].
    rewrite scan_gap by assumption.
    fold (finite_before_gap (fst (controlAlgorithm current dt (prot c)))).
    rewrite Hfin. reflexivity.
Qed.

End ControllerLifecycle.

(** *** The further controller properties at concrete controllers *)

Lemma replay_active_arises (ret : JointState) : arises (replay_active ret).
Proof. unfold replay_active, replay_idle. apply arises_goal, arises_new. Qed.

Lemma preemptCB_then_hold_witness :
  position still <> [] /\
  exists c',
    updateControl still stale_dt (preemptCB (replay_active sound_cmd))
    = Returned (seeded still, c') /\
    has_state_ c' = true.
Proof.
  assert (Hv : position still <> []) by discriminate.
  split; [exact Hv|].
  destruct (@preemptCB_then_hold _ _ _ _ replay (replay_active sound_cmd) still stale_dt Hv)
    as (_ & _ & _ & _ & c' & Hu & _ & Hh & _).
  exists c'. split; assumption.
Defined.

Lemma updateControl_goal_completed_witness :
  exists c',
    updateControl (hooks := finishing) still fresh_dt (finishing_active sound_cmd)
    = Returned (sound_cmd, c') /\
    has_state_ c' = false /\ acquired_goal_ c' = false.
Proof.
  destruct (@updateControl_goal_completed _ _ _ _ finishing
              (finishing_active sound_cmd) still fresh_dt
              eq_refl eq_refl eq_refl eq_refl (conj eq_refl eq_refl) eq_refl)
    as (c' & Hu & Hh & Hg & _).
  exists c'. repeat split; assumption.
Defined.

Lemma updateControl_cache_is_measured_witness :
  exists cmd c',
    updateControl still fresh_dt (replay_idle sound_cmd) = Returned (cmd, c') /\
    (last_state_ c' = last_state_ (replay_idle sound_cmd) \/
     (position still <> [] /\ last_state_ c' = seeded still /\ has_state_ c' = true)).
Proof.
  eexists. eexists. split; [reflexivity|].
  eapply (@updateControl_cache_is_measured _ _ _ _ replay (replay_idle sound_cmd)
            still fresh_dt).
  reflexivity.
Defined.

Lemma arises_cache_at_rest_witness :
  Forall (fun v => v = Double.zero)
         (velocity (last_state_ (replay_active sound_cmd))).
Proof.
  exact (proj1 (arises_cache_at_rest (replay_active_arises sound_cmd))).
Defined.

Lemma updateControl_command_witness :
  (ActionServer.isActive (action_server_ (prot (replay_active nan_cmd))) = true /\
   acquired_goal_ (replay_active nan_cmd) = true /\
   Double.gt (toSec fresh_dt) MAX_DT = false /\
   seeded still = fst (controlAlgorithm still fresh_dt (prot (replay_active nan_cmd))))
  \/ Forall (fun v => v = Double.zero) (velocity (seeded still)).
Proof.
  assert (Hu : updateControl still fresh_dt (replay_active nan_cmd)
               = Returned
                   (seeded still,
                    snd (lastState still
                           (emit (Log ERROR "Invalid joint states in replay")
                                 (snd (run_algorithm still fresh_dt
                                         (replay_active nan_cmd)))))))
    by (vm_compute; reflexivity).
  exact (@updateControl_command _ _ _ _ replay (replay_active nan_cmd) still fresh_dt
           _ _ (replay_active_arises nan_cmd) Hu).
Defined.

(* ------------------------------------------------------------------ *)
(** * Properties of the wrench manager *)

Import WrenchManager.

(** *** Lookup of an end-effector *)

Lemma getIndex_from_none (key : string) (keys : list string) (j : nat) :
  getIndex_from key keys j = None <-> ~ In key keys.
Proof.
  revert j; induction keys as [|k keys IH]; intros j; cbn; [tauto|].
  destruct (String.eqb_spec k key) as [E|N].
  - split; [discriminate|]. intros H. exfalso. apply H. auto.
  - rewrite IH. tauto.
Qed.

Lemma getIndex_from_some (key : string) (keys : list string) (j i : nat) :
  getIndex_from key keys j = Some i ->
  j <= i /\ nth_error keys (i - j) = Some key.
Proof.
  revert j; induction keys as [|k keys IH]; intros j; cbn; [discriminate|].
  destruct (String.eqb_spec k key) as [E|N].
  - intros H. inversion H; subst. rewrite Nat.sub_diag. split; [lia|reflexivity].
  - intros H. apply IH in H. destruct H as [Hle Hn]. split; [lia|].
    replace (i - j) with (S (i - S j)) by lia. exact Hn.
Qed.

Lemma getIndex_from_nodup (key : string) (keys : list string) (j i : nat) :
  NoDup keys -> nth_error keys i = Some key ->
  getIndex_from key keys j = Some (j + i).
Proof.
  revert j i; induction keys as [|k keys IH]; intros j i Hnd Hn.
  - destruct i; discriminate.
  - inversion Hnd as [|? ? Hnotin Hnd']; subst. destruct i as [|i]; cbn in *.
    + inversion Hn; subst. rewrite String.eqb_refl. f_equal. lia.
    + destruct (String.eqb_spec k key) as [E|N].
      * subst. exfalso. apply Hnotin. eapply nth_error_In; eauto.
      * rewrite (IH (S j) i) by assumption. f_equal. lia.
Qed.

Lemma getIndex_registered (e : string) (m : t) :
  In e (manager_index_ m) -> exists arm, getIndex e m = Some arm.
Proof.
  intros Hin. unfold getIndex.
  destruct (getIndex_from e (manager_index_ m) 0) as [arm|] eqn:E; [eauto|].
  apply getIndex_from_none in E. contradiction.
Qed.

(** *** Registration *)

(** A call of [initializeWrenchComm] either returns false and leaves the
    manager as it was, or returns true and has added one channel for a name
    that was not registered, with a 6x6 matrix. *)
Lemma initializeWrenchComm_cases (listener_ : tf.TransformListener)
    (parser_ : MatrixParser) (e sf gf st cp : string) (m : t) :
  (fst (fst (initializeWrenchComm listener_ parser_ e sf gf st cp m)) = false /\
   snd (fst (initializeWrenchComm listener_ parser_ e sf gf st cp m)) = m)
  \/
  (fst (fst (initializeWrenchComm listener_ parser_ e sf gf st cp m)) = true /\
   exists C T,
     ~ In e (manager_index_ m) /\
     parser_ cp = Some C /\ Eigen.rows C = 6%Z /\ Eigen.cols C = 6%Z /\
     snd (fst (initializeWrenchComm listener_ parser_ e sf gf st cp m))
     = add_comm e sf gf st C T m).
Proof.
  unfold initializeWrenchComm.
  destruct (getIndex e m) as [arm|] eqn:Ei; [left; split; reflexivity|].
  destruct (transform_loop _ _ _ _ _) as [[attempts stamped] evs].
  destruct (attempts >=? max_tf_attempts_ m)%Z; [left; split; reflexivity|].
  destruct (parser_ cp) as [C|] eqn:Ep; [|left; split; reflexivity].
  destruct (Eigen.cols C =? 6)%Z eqn:Ec; cbn [negb orb];
    [|left; split; reflexivity].
  destruct (Eigen.rows C =? 6)%Z eqn:Er; cbn [negb];
    [|left; split; reflexivity].
  right. split; [reflexivity|]. eexists C, _. repeat split.
  - apply getIndex_from_none in Ei. exact Ei.
  - apply Z.eqb_eq. exact Er.
  - apply Z.eqb_eq. exact Ec.
Qed.

Lemma assign_at_length {A : Type} (v : list A) (i : nat) (a : A) (r : list A) :
  assign_at v i a = Returned r -> List.length r = List.length v.
Proof.
  revert i r; induction v as [|b v IH]; intros [|i] r H; cbn in H;
    try discriminate.
  - inversion H; subst. reflexivity.
  - destruct (assign_at v i a) as [r'|] eqn:E; [|discriminate].
    inversion H; subst. cbn. f_equal. eapply IH; eauto.
Qed.

Lemma assign_at_read {A : Type} (v : list A) (i : nat) (a : A) (r : list A) :
  assign_at v i a = Returned r -> nth_error r i = Some a.
Proof.
  revert i r; induction v as [|b v IH]; intros [|i] r H; cbn in H;
    try discriminate.
  - inversion H; subst. reflexivity.
  - destruct (assign_at v i a) as [r'|] eqn:E; [|discriminate].
    inversion H; subst. cbn. eapply IH; eauto.
Qed.

Lemma assign_at_in_range {A : Type} (v : list A) (i : nat) (a : A) :
  i < List.length v -> exists r, assign_at v i a = Returned r.
Proof.
  revert i; induction v as [|b v IH]; intros [|i] H; cbn in *; try lia; eauto.
  destruct (IH i) as [r E]; [lia|]. rewrite E. eauto.
Qed.

Lemma add_comm_well_formed (e sf gf st : string) (C : Eigen.MatrixXd)
    (T : KDL.Frame) (m : t) :
  well_formed m -> ~ In e (manager_index_ m) ->
  Eigen.rows C = 6%Z -> Eigen.cols C = 6%Z ->
  well_formed (add_comm e sf gf st C T m).
Proof.
  intros (H1 & H2 & H3 & H4 & H5 & H6 & H7 & Hnd & Hm) Hnew Hr Hc.
  unfold well_formed. cbn. rewrite !length_app. cbn.
  repeat split; try lia.
  - apply NoDup_app; [assumption|repeat constructor; auto|].
    intros a Ha [E|[]]. subst. contradiction.
  - apply Forall_app. split; [assumption|]. repeat constructor; assumption.
Qed.

(** Every reachable manager is well formed. *)
Lemma reachable_well_formed (m : t) : reachable m -> well_formed m.
Proof.
  induction 1 as [attempts|m listener_ parser_ e sf gf st cp Hm IH|m msg m' evs Hm IH Hcb].
  - unfold well_formed. cbn. repeat split; constructor.
  - destruct (initializeWrenchComm_cases listener_ parser_ e sf gf st cp m)
      as [[_ ->]|[_ (C & T & Hnew & _ & Hr & Hc & ->)]]; [assumption|].
    apply add_comm_well_formed; assumption.
  - unfold forceTorqueCB in Hcb.
    destruct (_ <? 0)%Z; [inversion Hcb; subst; assumption|].
    destruct (at_ (calibration_matrix_ m) _) as [C|]; [|discriminate].
    cbn [bind] in Hcb.
    destruct (Eigen.MatrixXd_mul C _) as [w|]; [|discriminate].
    cbn [bind] in Hcb.
    destruct (assign_at _ _ _) as [measured|] eqn:Ea; [|discriminate].
    cbn [bind] in Hcb. inversion Hcb; subst.
    apply assign_at_length in Ea.
    destruct IH as (H1 & H2 & H3 & H4 & H5 & H6 & H7 & Hnd & Hmat).
    unfold well_formed. cbn. repeat split; try assumption. lia.
Qed.

(** C6.  A call of [initializeWrenchComm] for a name that is registered
    returns false and leaves the manager, with all its channels, as it
    was; this is so in particular for a second call after a registration
    that succeeded. *)
Theorem initializeWrenchComm_twice (m : t) (e : string)
    (listener_ listener' : tf.TransformListener) (parser_ parser' : MatrixParser)
    (sf gf st cp sf' gf' st' cp' : string) :
  (In e (manager_index_ m) ->
   fst (initializeWrenchComm listener' parser' e sf' gf' st' cp' m) = (false, m))
  /\
  (fst (fst (initializeWrenchComm listener_ parser_ e sf gf st cp m)) = true ->
   fst (initializeWrenchComm listener' parser' e sf' gf' st' cp'
          (snd (fst (initializeWrenchComm listener_ parser_ e sf gf st cp m))))
   = (false, snd (fst (initializeWrenchComm listener_ parser_ e sf gf st cp m)))).
Proof.
  assert (Hreg : forall m0, In e (manager_index_ m0) ->
            fst (initializeWrenchComm listener' parser' e sf' gf' st' cp' m0)
            = (false, m0)).
  { intros m0 Hin. unfold initializeWrenchComm.
    destruct (getIndex_registered e m0 Hin) as [arm ->]. reflexivity. }
  split; [apply Hreg|].
  intros Hok. apply Hreg.
  destruct (initializeWrenchComm_cases listener_ parser_ e sf gf st cp m)
    as [[Hf _]|[_ (C & T & _ & _ & _ & _ & ->)]]; [congruence|].
  cbn. apply in_or_app. right. left. reflexivity.
Qed.

(** C7.  When the calibration matrix is absent, or is not 6x6,
    [initializeWrenchComm] returns false and the manager is as it was. *)
Theorem initializeWrenchComm_bad_calibration (listener_ : tf.TransformListener)
    (parser_ : MatrixParser) (e sf gf st cp : string) (m : t) :
  parser_ cp = None \/
  (exists C, parser_ cp = Some C /\ (Eigen.rows C <> 6%Z \/ Eigen.cols C <> 6%Z)) ->
  fst (initializeWrenchComm listener_ parser_ e sf gf st cp m) = (false, m).
Proof.
  intros Hbad.
  destruct (initializeWrenchComm_cases listener_ parser_ e sf gf st cp m)
    as [[Hf Hm]|[_ (C & T & _ & Hp & Hr & Hc & _)]].
  - rewrite (surjective_pairing (fst _)). congruence.
  - exfalso. destruct Hbad as [Hnone|(C' & Hp' & Hdim)]; [congruence|].
    rewrite Hp in Hp'. inversion Hp'; subst. tauto.
Qed.

(** *** The retry loop *)

Lemma attempts_made_app (a b : list Event) :
  attempts_made (a ++ b) = attempts_made a + attempts_made b.
Proof. unfold attempts_made. rewrite filter_app, length_app. reflexivity. Qed.

Lemma attempts_made_failed (k : nat) (gf : string) (stamped : geometry_msgs.PoseStamped) :
  attempts_made (failed_attempts k gf stamped) = k.
Proof.
  induction k as [|k IH]; [reflexivity|].
  unfold attempts_made in *. cbn. rewrite IH. reflexivity.
Qed.

Lemma transform_loop_attempts (listener_ : tf.TransformListener) (gf : string)
    (stamped : geometry_msgs.PoseStamped) (a : Z) (todo : nat) :
  attempts_made (snd (transform_loop listener_ gf stamped a todo)) <= todo.
Proof.
  revert a; induction todo as [|todo IH]; intros a; cbn; [constructor|].
  destruct (listener_ _ _ _); [cbn; lia|].
  specialize (IH (a + 1)%Z).
  destruct (transform_loop listener_ gf stamped (a + 1) todo) as [[n out] evs].
  cbn in *. unfold attempts_made in *. cbn. lia.
Qed.

Lemma transform_loop_fails (listener_ : tf.TransformListener) (gf : string)
    (stamped : geometry_msgs.PoseStamped) (a : Z) (todo : nat) :
  (0 <= a)%Z ->
  (forall i, i < todo -> listener_ (Z.to_nat a + i) gf stamped = None) ->
  transform_loop listener_ gf stamped a todo
  = ((a + Z.of_nat todo)%Z, stamped, failed_attempts todo gf stamped).
Proof.
  revert a; induction todo as [|todo IH]; intros a Ha Hnone.
  - cbn. rewrite Z.add_0_r. reflexivity.
  - cbn [transform_loop failed_attempts].
    rewrite <- (Nat.add_0_r (Z.to_nat a)), Hnone by lia.
    rewrite IH.
    + do 2 f_equal. lia.
    + lia.
    + intros i Hi. replace (Z.to_nat (a + 1) + i) with (Z.to_nat a + S i) by lia.
      apply Hnone. lia.
Qed.

Lemma transform_loop_resolves (listener_ : tf.TransformListener) (gf : string)
    (stamped resolved : geometry_msgs.PoseStamped) (a : Z) (todo k : nat) :
  (0 <= a)%Z -> k < todo ->
  (forall i, i < k -> listener_ (Z.to_nat a + i) gf stamped = None) ->
  listener_ (Z.to_nat a + k) gf stamped = Some resolved ->
  transform_loop listener_ gf stamped a todo
  = ((a + Z.of_nat k)%Z, resolved,
     failed_attempts k gf stamped ++ [TransformPose gf stamped]).
Proof.
  revert a k; induction todo as [|todo IH]; intros a k Ha Hk Hnone Hsome; [lia|].
  cbn [transform_loop]. destruct k as [|k].
  - rewrite Nat.add_0_r in Hsome. rewrite Hsome. cbn. rewrite Z.add_0_r. reflexivity.
  - rewrite <- (Nat.add_0_r (Z.to_nat a)), Hnone by lia.
    rewrite (IH (a + 1)%Z k).
    + cbn [failed_attempts app]. do 2 f_equal. lia.
    + lia.
    + lia.
    + intros i Hi. replace (Z.to_nat (a + 1) + i) with (Z.to_nat a + S i) by lia.
      apply Hnone. lia.
    + replace (Z.to_nat (a + 1) + k) with (Z.to_nat a + S k) by lia. exact Hsome.
Qed.

(** What [initializeWrenchComm] does once the retry loop has ended with
    [attempts] on the counter, [stamped] as the pose and [evs] as its
    events, for a name that is not registered. *)
Lemma initializeWrenchComm_after_loop (listener_ : tf.TransformListener)
    (parser_ : MatrixParser) (e sf gf st cp : string) (m : t)
    (attempts : Z) (stamped : geometry_msgs.PoseStamped) (evs : list Event) :
  ~ In e (manager_index_ m) ->
  transform_loop listener_ gf (sensor_origin sf) 0 (Z.to_nat (max_tf_attempts_ m))
  = (attempts, stamped, evs) ->
  exists closing,
    snd (initializeWrenchComm listener_ parser_ e sf gf st cp m) = evs ++ closing /\
    attempts_made closing = 0 /\
    fst (initializeWrenchComm listener_ parser_ e sf gf st cp m) =
      if (attempts >=? max_tf_attempts_ m)%Z then (false, m)
      else match parser_ cp with
           | Some C =>
               if (Eigen.cols C =? 6)%Z && (Eigen.rows C =? 6)%Z
               then (true,
                     add_comm e sf gf st C
                       (tf.poseMsgToKDL (geometry_msgs.pose stamped)) m)
               else (false, m)
           | None => (false, m)
           end.
Proof.
  intros Hnew Hloop. apply getIndex_from_none with (j := 0) in Hnew.
  unfold initializeWrenchComm, getIndex. rewrite Hnew, Hloop.
  destruct (attempts >=? max_tf_attempts_ m)%Z; [eexists; repeat split|].
  destruct (parser_ cp) as [C|]; [|eexists; repeat split].
  destruct (Eigen.cols C =? 6)%Z, (Eigen.rows C =? 6)%Z; cbn [negb orb andb];
    eexists; repeat split.
Qed.

(** C8.  [initializeWrenchComm] looks the transform up at most
    [max_tf_attempts_] times; when every lookup within the bound fails it
    returns false, each failed lookup being followed by a sleep of 0.1;
    when the lookup number [k] (from 0, within the bound) is the first to
    succeed, no further lookup is made and the registration goes on to the
    calibration matrix with the pose of that lookup.  The bound is 5 when
    the parameter is missing. *)
Theorem initializeWrenchComm_retries (listener_ : tf.TransformListener)
    (parser_ : MatrixParser) (e sf gf st cp : string) (m : t) :
  let n := max_tf_attempts_ m in
  let origin := sensor_origin sf in
  let r := initializeWrenchComm listener_ parser_ e sf gf st cp m in
  (Z.of_nat (attempts_made (snd r)) <= Z.max 0 n)%Z
  /\
  ((forall i, (Z.of_nat i < n)%Z -> listener_ i gf origin = None) ->
   fst r = (false, m) /\
   (~ In e (manager_index_ m) ->
    exists report,
      snd r = failed_attempts (Z.to_nat n) gf origin ++ [Log ERROR report]))
  /\
  (forall k resolved,
     ~ In e (manager_index_ m) ->
     (Z.of_nat k < n)%Z ->
     (forall i, i < k -> listener_ i gf origin = None) ->
     listener_ k gf origin = Some resolved ->
     attempts_made (snd r) = S k /\
     (exists rest,
        snd r = failed_attempts k gf origin ++ TransformPose gf origin :: rest) /\
     fst r = match parser_ cp with
             | Some C =>
                 if (Eigen.cols C =? 6)%Z && (Eigen.rows C =? 6)%Z
                 then (true,
                       add_comm e sf gf st C
                         (tf.poseMsgToKDL (geometry_msgs.pose resolved)) m)
                 else (false, m)
             | None => (false, m)
             end)
  /\ max_tf_attempts_ (fst (new None)) = 5%Z
  /\ toSec retry_delay = Double.div (Double.of_Z 1) (Double.of_Z 10).
Proof.
  intros n origin r. subst r origin n.
  split; [|split; [|split; [|split; reflexivity]]].
  - destruct (getIndex e m) as [arm|] eqn:Ei.
    + unfold initializeWrenchComm. rewrite Ei. cbn. lia.
    + apply getIndex_from_none in Ei.
      destruct (transform_loop listener_ gf (sensor_origin sf) 0
                  (Z.to_nat (max_tf_attempts_ m))) as [[a s] evs] eqn:El.
      destruct (initializeWrenchComm_after_loop listener_ parser_ e sf gf st cp m Ei El)
        as (closing & -> & Hc & _).
      rewrite attempts_made_app, Hc.
      pose proof (transform_loop_attempts listener_ gf (sensor_origin sf) 0
                    (Z.to_nat (max_tf_attempts_ m))) as Hle.
      rewrite El in Hle. cbn [snd] in Hle. lia.
  - intros Hnone.
    assert (El : transform_loop listener_ gf (sensor_origin sf) 0
                   (Z.to_nat (max_tf_attempts_ m))
                 = ((0 + Z.of_nat (Z.to_nat (max_tf_attempts_ m)))%Z,
                    sensor_origin sf,
                    failed_attempts (Z.to_nat (max_tf_attempts_ m)) gf (sensor_origin sf))).
    { apply transform_loop_fails; [lia|]. intros i Hi. apply Hnone. lia. }
    destruct (getIndex e m) as [arm|] eqn:Ei.
    + split; [unfold initializeWrenchComm; rewrite Ei; reflexivity|].
      intros Hnew. apply getIndex_from_none with (j := 0) in Hnew.
      unfold getIndex in Ei. congruence.
    + apply getIndex_from_none in Ei.
      unfold initializeWrenchComm, getIndex.
      rewrite (proj2 (getIndex_from_none e (manager_index_ m) 0) Ei), El.
      replace (0 + Z.of_nat (Z.to_nat (max_tf_attempts_ m))
               >=? max_tf_attempts_ m)%Z with true
        by (symmetry; apply Z.geb_le; lia).
      split; [reflexivity|]. intros _. eexists. reflexivity.
  - intros k resolved Hnew Hk Hnone Hsome.
    assert (El : transform_loop listener_ gf (sensor_origin sf) 0
                   (Z.to_nat (max_tf_attempts_ m))
                 = ((0 + Z.of_nat k)%Z, resolved,
                    failed_attempts k gf (sensor_origin sf)
                    ++ [TransformPose gf (sensor_origin sf)])).
    { apply transform_loop_resolves; auto; lia. }
    destruct (initializeWrenchComm_after_loop listener_ parser_ e sf gf st cp m Hnew El)
      as (closing & Hev & Hc & Hres).
    replace (0 + Z.of_nat k >=? max_tf_attempts_ m)%Z with false in Hres
      by (symmetry; rewrite Z.geb_leb; apply Z.leb_gt; lia).
    repeat split.
    + rewrite Hev, !attempts_made_app, attempts_made_failed, Hc. cbn. lia.
    + exists closing. rewrite Hev, <- app_assoc. reflexivity.
    + exact Hres.
Qed.

(** *** Samples and queries *)

Lemma find_sensor_first (frame : string) (frames : list string) (i : Z) (k : nat) :
  (forall j, j < k -> nth_error frames j <> Some frame) ->
  nth_error frames k = Some frame ->
  find_sensor frame frames i = (i + Z.of_nat k)%Z.
Proof.
  revert i k; induction frames as [|f frames IH]; intros i k Hfirst Hk.
  - destruct k; discriminate.
  - cbn [find_sensor]. destruct k as [|k].
    + cbn in Hk. inversion Hk; subst. rewrite String.eqb_refl. lia.
    + destruct (String.eqb_spec frame f) as [E|N].
      * exfalso. apply (Hfirst 0); [lia|]. cbn. congruence.
      * rewrite (IH (i + 1)%Z k); [lia| |exact Hk].
        intros j Hj. apply (Hfirst (S j)). lia.
Qed.

Lemma nth_error_in_range {A : Type} (l : list A) (i : nat) :
  i < List.length l -> exists a, nth_error l i = Some a.
Proof.
  intros H. destruct (nth_error l i) as [a|] eqn:E; [eauto|].
  apply nth_error_None in E. lia.
Qed.

Lemma wrenchKDLToEigen_wrenchEigenToKDL (w : Eigen.Vector6d) :
  tf.wrenchKDLToEigen (tf.wrenchEigenToKDL w) = w.
Proof. destruct w; reflexivity. Qed.

Lemma wrenchEigenToKDL_wrenchKDLToEigen (w : KDL.Wrench) :
  tf.wrenchEigenToKDL (tf.wrenchKDLToEigen w) = w.
Proof. destruct w as [[? ? ?] [? ? ?]]; reflexivity. Qed.

(** C4, as amended.  For a channel of a reachable manager and a raw sample
    whose frame is the sensor frame of that channel and of no channel
    registered before it, the sample is ingested, and [wrenchAtSensorPoint]
    right afterwards succeeds with the calibration matrix of the channel
    times the raw sample. *)
Theorem sample_round_trip (m : t) (msg : geometry_msgs.WrenchStamped)
    (k : nat) (e : string) (C : Eigen.MatrixXd) :
  reachable m ->
  nth_error (manager_index_ m) k = Some e ->
  nth_error (sensor_frame_ m) k = Some (frame_id (geometry_msgs.ws_header msg)) ->
  (forall j, j < k ->
     nth_error (sensor_frame_ m) j <> Some (frame_id (geometry_msgs.ws_header msg))) ->
  nth_error (calibration_matrix_ m) k = Some C ->
  exists w m',
    Eigen.MatrixXd_mul C (tf.wrenchMsgToEigen (geometry_msgs.wrench msg)) = Returned w /\
    forceTorqueCB msg m = Returned (m', []) /\
    wrenchAtSensorPoint e m' = Returned (Some w).
Proof.
  intros Hreach He Hframe Hfirst HC.
  destruct (reachable_well_formed Hreach) as (_ & _ & _ & Hlen & _ & _ & _ & Hnd & Hmat).
  assert (Hk : k < List.length (manager_index_ m)).
  { apply nth_error_Some. congruence. }
  assert (Hdim : Eigen.rows C = 6%Z /\ Eigen.cols C = 6%Z).
  { rewrite Forall_forall in Hmat. apply Hmat. eapply nth_error_In; eauto. }
  destruct Hdim as [Hr Hc].
  assert (Hmul : exists w,
            Eigen.MatrixXd_mul C (tf.wrenchMsgToEigen (geometry_msgs.wrench msg))
            = Returned w).
  { unfold Eigen.MatrixXd_mul. rewrite Hr, Hc. cbn. eauto. }
  destruct Hmul as [w Hw].
  destruct (assign_at_in_range (measured_wrench_ m) (tf.wrenchEigenToKDL w)
              (i := k)) as [measured Hassign]; [lia|].
  exists w, (set_measured_wrench measured m). split; [exact Hw|]. split.
  - unfold forceTorqueCB.
    rewrite (@find_sensor_first _ _ 0 _ Hfirst Hframe).
    replace (0 + Z.of_nat k <? 0)%Z with false by (symmetry; apply Z.ltb_ge; lia).
    replace (Z.to_nat (0 + Z.of_nat k)) with k by lia.
    unfold at_ at 1. rewrite HC. cbn [bind]. rewrite Hw. cbn [bind].
    rewrite Hassign. reflexivity.
  - unfold wrenchAtSensorPoint, getIndex. cbn [manager_index_ set_measured_wrench].
    rewrite (@getIndex_from_nodup _ _ 0 _ Hnd He).
    cbn [Nat.add measured_wrench_ set_measured_wrench]. unfold at_. rewrite (assign_at_read _ _ _ Hassign). cbn [bind].
    rewrite wrenchKDLToEigen_wrenchEigenToKDL. reflexivity.
Qed.

(** C5.  On a reachable manager, [wrenchAtGrippingPoint] fails for a name
    that is not registered and publishes nothing; for a registered name it
    returns the static transform of the channel applied to the wrench that
    [wrenchAtSensorPoint] returns, and publishes that wrench, stamped with
    the gripping frame of the channel, on the channel's publisher. *)
Theorem wrenchAtGrippingPoint_frame (m : t) (now : Time) (e : string) :
  reachable m ->
  (~ In e (manager_index_ m) ->
   wrenchAtGrippingPoint now e m = Returned (None, []) /\
   wrenchAtSensorPoint e m = Returned None)
  /\
  (forall arm, nth_error (manager_index_ m) arm = Some e ->
   exists T frame pub w,
     nth_error (sensor_to_gripping_point_ m) arm = Some T /\
     nth_error (gripping_frame_ m) arm = Some frame /\
     nth_error (processed_ft_pub_ m) arm = Some pub /\
     wrenchAtSensorPoint e m = Returned (Some w) /\
     wrenchAtGrippingPoint now e m =
       Returned
         (Some (tf.wrenchKDLToEigen (KDL.Frame_mul_Wrench T (tf.wrenchEigenToKDL w))),
          [Publish (pub_topic pub)
             {| geometry_msgs.ws_header :=
                  {| seq := 0; stamp := now; frame_id := frame |};
                geometry_msgs.wrench :=
                  tf.wrenchKDLToMsg
                    (KDL.Frame_mul_Wrench T (tf.wrenchEigenToKDL w)) |}])).
Proof.
  intros Hreach.
  destruct (reachable_well_formed Hreach) as (_ & Hg & Ht & Hw & _ & _ & Hp & Hnd & _).
  split.
  - intros Hnew. apply getIndex_from_none with (j := 0) in Hnew.
    unfold wrenchAtGrippingPoint, wrenchAtSensorPoint, getIndex. rewrite Hnew.
    split; reflexivity.
  - intros arm He.
    assert (Harm : arm < List.length (manager_index_ m)).
    { apply nth_error_Some. congruence. }
    destruct (nth_error_in_range (sensor_to_gripping_point_ m) (i := arm)) as [T HT]; [lia|].
    destruct (nth_error_in_range (gripping_frame_ m) (i := arm)) as [frame Hf]; [lia|].
    destruct (nth_error_in_range (processed_ft_pub_ m) (i := arm)) as [pub Hpub]; [lia|].
    destruct (nth_error_in_range (measured_wrench_ m) (i := arm)) as [w Hmw]; [lia|].
    exists T, frame, pub, (tf.wrenchKDLToEigen w).
    unfold wrenchAtGrippingPoint, wrenchAtSensorPoint, getIndex.
    rewrite (@getIndex_from_nodup _ _ 0 _ Hnd He). cbn [Nat.add]. unfold at_.
    rewrite HT, Hf, Hpub, Hmw. cbn [bind].
    rewrite wrenchEigenToKDL_wrenchKDLToEigen. repeat split; reflexivity.
Qed.

(** *** The manager properties at concrete managers *)

Import WrenchExample.

Lemma one_arm_reachable : reachable one_arm.
Proof. unfold one_arm. apply reach_init, reach_new. Qed.

Lemma two_arms_one_sensor_reachable : reachable two_arms_one_sensor.
Proof. unfold two_arms_one_sensor. apply reach_init, one_arm_reachable. Qed.

(** The scenario of one arm with the identity as calibration and as
    transform: the sample (1,...,6) is read back unchanged at both points. *)
Example left_arm_scenario :
  exists m',
    forceTorqueCB sample one_arm = Returned (m', []) /\
    wrenchAtSensorPoint "left_arm" m' = Returned (Some (tf.wrenchMsgToEigen raw_wrench)) /\
    exists published,
      wrenchAtGrippingPoint noon "left_arm" m'
      = Returned (Some (tf.wrenchMsgToEigen raw_wrench), [published]).
Proof.
  eexists. split; [reflexivity|]. split; [reflexivity|].
  eexists. vm_compute. reflexivity.
Qed.

Lemma sample_round_trip_witness :
  exists w m',
    Eigen.MatrixXd_mul identity6 (tf.wrenchMsgToEigen raw_wrench) = Returned w /\
    forceTorqueCB sample one_arm = Returned (m', []) /\
    wrenchAtSensorPoint "left_arm" m' = Returned (Some w).
Proof.
  apply (@sample_round_trip one_arm sample 0 "left_arm" identity6
           one_arm_reachable eq_refl eq_refl).
  - intros j Hj. lia.
  - reflexivity.
Defined.

(** C4, as stated, fails.  The right arm is registered on the sensor frame
    of the left arm; a sample of that frame goes to the left arm, and the
    right arm still reports the zero wrench it was registered with. *)
Lemma sample_round_trip_counterexample :
  reachable two_arms_one_sensor /\
  nth_error (manager_index_ two_arms_one_sensor) 1 = Some "right_arm"%string /\
  nth_error (sensor_frame_ two_arms_one_sensor) 1
  = Some (frame_id (geometry_msgs.ws_header sample)) /\
  nth_error (calibration_matrix_ two_arms_one_sensor) 1 = Some identity6 /\
  exists w m',
    Eigen.MatrixXd_mul identity6 (tf.wrenchMsgToEigen raw_wrench) = Returned w /\
    forceTorqueCB sample two_arms_one_sensor = Returned (m', []) /\
    wrenchAtSensorPoint "right_arm" m'
    = Returned (Some (tf.wrenchKDLToEigen KDL.Wrench_Zero)) /\
    wrenchAtSensorPoint "right_arm" m' <> Returned (Some w).
Proof.
  split; [exact two_arms_one_sensor_reachable|].
  repeat split.
  eexists _, _. split; [reflexivity|]. split; [reflexivity|].
  split; [reflexivity|]. vm_compute. discriminate.
Qed.

Lemma wrenchAtGrippingPoint_frame_witness :
  (wrenchAtGrippingPoint noon "right_arm" one_arm = Returned (None, []) /\
   wrenchAtSensorPoint "right_arm" one_arm = Returned None) /\
  exists T w published,
    nth_error (sensor_to_gripping_point_ one_arm) 0 = Some T /\
    wrenchAtSensorPoint "left_arm" one_arm = Returned (Some w) /\
    wrenchAtGrippingPoint noon "left_arm" one_arm =
      Returned
        (Some (tf.wrenchKDLToEigen (KDL.Frame_mul_Wrench T (tf.wrenchEigenToKDL w))),
         [published]).
Proof.
  pose proof (@wrenchAtGrippingPoint_frame one_arm noon "right_arm" one_arm_reachable)
    as Hunknown.
  pose proof (@wrenchAtGrippingPoint_frame one_arm noon "left_arm" one_arm_reachable)
    as Hknown.
  split.
  - apply (proj1 Hunknown). cbn. intros [E|[]]. discriminate.
  - destruct (proj2 Hknown 0 eq_refl) as (T & frame & pub & w & HT & _ & _ & Hs & Hg).
    exists T, w. eexists. repeat split; eassumption.
Defined.

Lemma initializeWrenchComm_twice_witness :
  In "left_arm"%string (manager_index_ one_arm) /\
  fst (initializeWrenchComm resolves calibrated "left_arm" "other_sensor"
         "other_grip" "other_ft" "other/sensor_calib" one_arm)
  = (false, one_arm).
Proof.
  assert (Hin : In "left_arm"%string (manager_index_ one_arm))
    by (left; reflexivity).
  split; [exact Hin|].
  exact (proj1 (@initializeWrenchComm_twice one_arm "left_arm" resolves resolves
                  calibrated calibrated "left_sensor" "left_grip" "left_ft"
                  "left/sensor_calib" "other_sensor" "other_grip" "other_ft"
                  "other/sensor_calib") Hin).
Defined.

Lemma initializeWrenchComm_bad_calibration_witness :
  fst (initializeWrenchComm resolves miscalibrated "right_arm" "right_sensor"
         "right_grip" "right_ft" "right/sensor_calib" one_arm)
  = (false, one_arm).
Proof.
  apply initializeWrenchComm_bad_calibration.
  right. exists narrow. split; [reflexivity|]. right. cbn. discriminate.
Defined.

Lemma initializeWrenchComm_retries_witness :
  attempts_made
    (snd (initializeWrenchComm resolves_third calibrated "left_arm" "left_sensor"
            "left_grip" "left_ft" "left/sensor_calib" (fst (new None)))) = 3 /\
  fst (fst (initializeWrenchComm never_resolves calibrated "left_arm" "left_sensor"
              "left_grip" "left_ft" "left/sensor_calib" (fst (new None)))) = false.
Proof.
  pose proof (initializeWrenchComm_retries resolves_third calibrated "left_arm"
                "left_sensor" "left_grip" "left_ft" "left/sensor_calib"
                (fst (new None))) as Hthird.
  pose proof (initializeWrenchComm_retries never_resolves calibrated "left_arm"
                "left_sensor" "left_grip" "left_ft" "left/sensor_calib"
                (fst (new None))) as Hnever.
  cbv zeta in Hthird, Hnever.
  destruct Hthird as (_ & _ & Hk & _). destruct Hnever as (_ & Hfail & _).
  split.
  - refine (proj1 (Hk 2 _ _ _ _ eq_refl)).
    + intros [].
    + cbn. lia.
    + intros [|[|i]] Hi; [reflexivity|reflexivity|lia].
  - rewrite (proj1 (Hfail (fun _ _ => eq_refl))). reflexivity.
Defined.

(* ------------------------------------------------------------------ *)
(** * Further properties of the wrench manager *)

(** *** Samples *)

Lemma find_sensor_none (frame : string) (frames : list string) (i : Z) :
  ~ In frame frames -> find_sensor frame frames i = (-1)%Z.
Proof.
  revert i; induction frames as [|f frames IH]; intros i Hn; [reflexivity|].
  cbn [find_sensor]. destruct (String.eqb_spec frame f) as [E|N].
  - exfalso. apply Hn. left. congruence.
  - apply IH. intros Hin. apply Hn. right. exact Hin.
Qed.

(** A string that occurs in a list has a first index there. *)
Lemma first_index (frame : string) (frames : list string) :
  In frame frames ->
  exists k, nth_error frames k = Some frame /\
            forall j, j < k -> nth_error frames j <> Some frame.
Proof.
  induction frames as [|f frames IH]; intros Hin; [contradiction|].
  destruct (String.eqb_spec f frame) as [E|N].
  - exists 0. split; [cbn; congruence|]. intros j Hj. lia.
  - destruct Hin as [E|Hin]; [contradiction|].
    destruct (IH Hin) as (k & Hk & Hfirst). exists (S k). split; [exact Hk|].
    intros [|j] Hj; cbn; [congruence|]. apply Hfirst. lia.
Qed.

Lemma assign_at_other {A : Type} (v : list A) (i j : nat) (a : A) (r : list A) :
  assign_at v i a = Returned r -> j <> i -> nth_error r j = nth_error v j.
Proof.
  revert i j r; induction v as [|b v IH]; intros [|i] [|j] r H Hne; cbn in H;
    try discriminate; try lia.
  - inversion H; subst. reflexivity.
  - destruct (assign_at v i a) as [r'|]; [|discriminate].
    inversion H; subst. reflexivity.
  - destruct (assign_at v i a) as [r'|] eqn:E; [|discriminate].
    inversion H; subst. cbn. eapply IH; eauto.
Qed.

Lemma assign_at_again {A : Type} (v : list A) (i : nat) (a b : A) (r : list A) :
  assign_at v i a = Returned r -> assign_at r i b = assign_at v i b.
Proof.
  revert i r; induction v as [|c v IH]; intros [|i] r H; cbn in H;
    try discriminate.
  - inversion H; subst. reflexivity.
  - destruct (assign_at v i a) as [r'|] eqn:E; [|discriminate].
    inversion H; subst. cbn. rewrite (IH i r' E). reflexivity.
Qed.

(** What [forceTorqueCB] does on a well-formed manager: it drops a sample of
    an unknown frame, and otherwise overwrites the cached wrench of the
    first channel on that frame. *)
Lemma forceTorqueCB_cases (msg : geometry_msgs.WrenchStamped) (m : t) :
  well_formed m ->
  (~ In (frame_id (geometry_msgs.ws_header msg)) (sensor_frame_ m) /\
   exists report, forceTorqueCB msg m = Returned (m, [Log ERROR report]))
  \/
  (exists k C w measured,
     nth_error (sensor_frame_ m) k = Some (frame_id (geometry_msgs.ws_header msg)) /\
     (forall j, j < k ->
        nth_error (sensor_frame_ m) j <> Some (frame_id (geometry_msgs.ws_header msg))) /\
     nth_error (calibration_matrix_ m) k = Some C /\
     Eigen.MatrixXd_mul C (tf.wrenchMsgToEigen (geometry_msgs.wrench msg)) = Returned w /\
     assign_at (measured_wrench_ m) k (tf.wrenchEigenToKDL w) = Returned measured /\
     forceTorqueCB msg m = Returned (set_measured_wrench measured m, [])).
Proof.
  intros (Hsf & _ & _ & Hmw & Hcm & _ & _ & _ & Hmat).
  destruct (in_dec string_dec (frame_id (geometry_msgs.ws_header msg)) (sensor_frame_ m))
    as [Hin|Hn].
  - right. destruct (first_index _ _ Hin) as (k & Hk & Hfirst).
    assert (Hlt : k < List.length (sensor_frame_ m)).
    { apply nth_error_Some. congruence. }
    destruct (nth_error_in_range (calibration_matrix_ m) (i := k)) as [C HC]; [lia|].
    assert (Hdim : Eigen.rows C = 6%Z /\ Eigen.cols C = 6%Z).
    { rewrite Forall_forall in Hmat. apply Hmat. eapply nth_error_In; eauto. }
    destruct Hdim as [Hr Hc].
    assert (Hmul : exists w,
              Eigen.MatrixXd_mul C (tf.wrenchMsgToEigen (geometry_msgs.wrench msg))
              = Returned w).
    { unfold Eigen.MatrixXd_mul. rewrite Hr, Hc. cbn. eauto. }
    destruct Hmul as [w Hw].
    destruct (assign_at_in_range (measured_wrench_ m) (tf.wrenchEigenToKDL w)
                (i := k)) as [measured Hassign]; [lia|].
    exists k, C, w, measured. repeat split; try assumption.
    unfold forceTorqueCB. rewrite (@find_sensor_first _ _ 0 _ Hfirst Hk).
    replace (0 + Z.of_nat k <? 0)%Z with false by (symmetry; apply Z.ltb_ge; lia).
    replace (Z.to_nat (0 + Z.of_nat k)) with k by lia.
    unfold at_ at 1. rewrite HC. cbn [bind]. rewrite Hw. cbn [bind].
    rewrite Hassign. reflexivity.
  - left. split; [exact Hn|]. unfold forceTorqueCB.
    rewrite find_sensor_none by assumption. cbn. eauto.
Qed.

(** X7.  A sample whose frame is the sensor frame of no channel is dropped:
    the manager is left as it was, one error line is logged, and no read
    outside a vector is made, on any manager. *)
Theorem forceTorqueCB_unknown_frame (msg : geometry_msgs.WrenchStamped) (m : t) :
  ~ In (frame_id (geometry_msgs.ws_header msg)) (sensor_frame_ m) ->
  exists report, forceTorqueCB msg m = Returned (m, [Log ERROR report]).
Proof.
  intros Hn. unfold forceTorqueCB.
  rewrite find_sensor_none by assumption. cbn. eauto.
Qed.

(** X8.  On a reachable manager [forceTorqueCB] always returns; it changes
    nothing but cached wrenches, and every channel whose sensor frame is
    not the frame of the sample answers [wrenchAtSensorPoint] as before. *)
Theorem forceTorqueCB_frame (msg : geometry_msgs.WrenchStamped) (m : t) :
  reachable m ->
  exists m' evs,
    forceTorqueCB msg m = Returned (m', evs) /\
    (exists measured,
       m' = set_measured_wrench measured m /\
       List.length measured = List.length (measured_wrench_ m)) /\
    forall e j,
      nth_error (manager_index_ m) j = Some e ->
      nth_error (sensor_frame_ m) j <> Some (frame_id (geometry_msgs.ws_header msg)) ->
      wrenchAtSensorPoint e m' = wrenchAtSensorPoint e m.
Proof.
  intros Hreach. pose proof (reachable_well_formed Hreach) as Hwf.
  destruct (forceTorqueCB_cases msg Hwf)
    as [(Hn & report & ->)|(k & C & w & measured & Hk & _ & _ & _ & Ha & ->)].
  - exists m, [Log ERROR report]. split; [reflexivity|]. split; [|reflexivity].
    exists (measured_wrench_ m). split; [destruct m; reflexivity|reflexivity].
  - exists (set_measured_wrench measured m), []. split; [reflexivity|]. split.
    + exists measured. split; [reflexivity|]. eapply assign_at_length; eauto.
    + intros e j He Hframe.
      destruct Hwf as (_ & _ & _ & _ & _ & _ & _ & Hnd & _).
      unfold wrenchAtSensorPoint, getIndex.
      cbn [manager_index_ measured_wrench_ set_measured_wrench].
      rewrite (@getIndex_from_nodup _ _ 0 _ Hnd He). cbn [Nat.add]. unfold at_.
      rewrite (@assign_at_other _ _ _ j _ _ Ha); [reflexivity|]. congruence.
Qed.

(** X9.  Only the latest sample of a frame matters: after a sample has been
    ingested, ingesting a second sample of the same frame gives the manager
    that the second sample alone would have given. *)
Theorem forceTorqueCB_overwrites (msg1 msg2 : geometry_msgs.WrenchStamped)
    (m m1 : t) (evs1 : list Event) :
  frame_id (geometry_msgs.ws_header msg1) = frame_id (geometry_msgs.ws_header msg2) ->
  forceTorqueCB msg1 m = Returned (m1, evs1) ->
  forceTorqueCB msg2 m1 = forceTorqueCB msg2 m.
Proof.
  intros Hframe H1. unfold forceTorqueCB in *. rewrite Hframe in H1.
  destruct (find_sensor _ (sensor_frame_ m) 0 <? 0)%Z eqn:Hneg.
  - injection H1 as <- _. rewrite Hneg. reflexivity.
  - destruct (at_ (calibration_matrix_ m) _) as [C|] eqn:HC; [|discriminate].
    cbn [bind] in H1.
    destruct (Eigen.MatrixXd_mul C (tf.wrenchMsgToEigen (geometry_msgs.wrench msg1)))
      as [w1|]; [|discriminate].
    cbn [bind] in H1.
    destruct (assign_at (measured_wrench_ m) _ (tf.wrenchEigenToKDL w1))
      as [measured1|] eqn:Ha; [|discriminate].
    cbn [bind] in H1. injection H1 as <- _.
    cbn [sensor_frame_ calibration_matrix_ measured_wrench_ set_measured_wrench].
    rewrite Hneg, HC. cbn [bind].
    destruct (Eigen.MatrixXd_mul C (tf.wrenchMsgToEigen (geometry_msgs.wrench msg2)))
      as [w2|]; [|reflexivity].
    cbn [bind]. rewrite (@assign_at_again _ _ _ _ (tf.wrenchEigenToKDL w2) _ Ha).
    destruct (assign_at (measured_wrench_ m) _ (tf.wrenchEigenToKDL w2)); reflexivity.
Qed.

(** *** Registration *)

(** Among the first [n] answers, either all are failures or there is a
    first success. *)
Lemma first_success {A : Type} (f : nat -> option A) (n : nat) :
  (forall i, i < n -> f i = None) \/
  (exists k r, k < n /\ f k = Some r /\ forall i, i < k -> f i = None).
Proof.
  induction n as [|n IH]; [left; intros i Hi; lia|].
  destruct IH as [Hnone|(k & r & Hk & Hr & Hfirst)].
  - destruct (f n) as [r|] eqn:E.
    + right. exists n, r. repeat split; auto.
    + left. intros i Hi. destruct (Nat.eq_dec i n) as [->|Hne]; [exact E|].
      apply Hnone. lia.
  - right. exists k, r. repeat split; auto.
Qed.

(** The retry loop makes lookups, logs warnings and sleeps for
    [retry_delay]; it does nothing else. *)
Lemma transform_loop_events (listener_ : tf.TransformListener) (gf : string)
    (stamped : geometry_msgs.PoseStamped) (a : Z) (todo : nat) (ev : Event) :
  In ev (snd (transform_loop listener_ gf stamped a todo)) ->
  ev = TransformPose gf stamped \/
  ev = Log WARN "TF exception in wrench manager" \/
  ev = Sleep retry_delay.
Proof.
  revert a; induction todo as [|todo IH]; intros a; cbn; [contradiction|].
  destruct (listener_ _ _ _).
  - cbn. intros [E|[]]. auto.
  - specialize (IH (a + 1)%Z).
    destruct (transform_loop listener_ gf stamped (a + 1) todo) as [[n out] evs].
    cbn in *. intros [E|[E|[E|Hin]]]; auto.
Qed.

(** X10.  A registration succeeds exactly when the name is not registered
    yet, some transform lookup within the bound succeeds, and the
    calibration key yields a 6x6 matrix. *)
Theorem initializeWrenchComm_succeeds_iff (listener_ : tf.TransformListener)
    (parser_ : MatrixParser) (e sf gf st cp : string) (m : t) :
  fst (fst (initializeWrenchComm listener_ parser_ e sf gf st cp m)) = true
  <->
  (~ In e (manager_index_ m) /\
   (exists k resolved,
      (Z.of_nat k < max_tf_attempts_ m)%Z /\
      listener_ k gf (sensor_origin sf) = Some resolved /\
      forall i, i < k -> listener_ i gf (sensor_origin sf) = None) /\
   exists C, parser_ cp = Some C /\ Eigen.rows C = 6%Z /\ Eigen.cols C = 6%Z).
Proof.
  split.
  - intros Hok.
    destruct (initializeWrenchComm_cases listener_ parser_ e sf gf st cp m)
      as [[Hf _]|[_ (C & T & Hnew & Hp & Hr & Hc & _)]]; [congruence|].
    split; [exact Hnew|]. split; [|eauto].
    destruct (first_success (fun i => listener_ i gf (sensor_origin sf))
                (Z.to_nat (max_tf_attempts_ m)))
      as [Hnone|(k & r & Hk & Hr' & Hfirst)].
    + exfalso.
      assert (El : transform_loop listener_ gf (sensor_origin sf) 0
                     (Z.to_nat (max_tf_attempts_ m))
                   = ((0 + Z.of_nat (Z.to_nat (max_tf_attempts_ m)))%Z,
                      sensor_origin sf,
                      failed_attempts (Z.to_nat (max_tf_attempts_ m)) gf
                        (sensor_origin sf))).
      { apply transform_loop_fails; [lia|]. intros i Hi. apply Hnone. lia. }
      destruct (initializeWrenchComm_after_loop listener_ parser_ e sf gf st cp m
                  Hnew El) as (_ & _ & _ & Hres).
      replace (0 + Z.of_nat (Z.to_nat (max_tf_attempts_ m))
               >=? max_tf_attempts_ m)%Z with true in Hres
        by (symmetry; apply Z.geb_le; lia).
      rewrite Hres in Hok. discriminate.
    + exists k, r. repeat split; auto. lia.
  - intros (Hnew & (k & r & Hk & Hr & Hfirst) & C & Hp & Hrows & Hcols).
    assert (El : transform_loop listener_ gf (sensor_origin sf) 0
                   (Z.to_nat (max_tf_attempts_ m))
                 = ((0 + Z.of_nat k)%Z, r,
                    failed_attempts k gf (sensor_origin sf)
                    ++ [TransformPose gf (sensor_origin sf)])).
    { apply transform_loop_resolves; auto; lia. }
    destruct (initializeWrenchComm_after_loop listener_ parser_ e sf gf st cp m
                Hnew El) as (_ & _ & _ & Hres).
    replace (0 + Z.of_nat k >=? max_tf_attempts_ m)%Z with false in Hres
      by (symmetry; rewrite Z.geb_leb; apply Z.leb_gt; lia).
    rewrite Hres, Hp, Hrows, Hcols. reflexivity.
Qed.

(** X11.  Every failed registration leaves the manager as it was and ends
    with one error line, the only one of the call; a successful one logs no
    error, and ends with the subscription to the sensor topic and the
    advertisement of the converted topic. *)
Theorem initializeWrenchComm_reports (listener_ : tf.TransformListener)
    (parser_ : MatrixParser) (e sf gf st cp : string) (m : t) :
  let r := initializeWrenchComm listener_ parser_ e sf gf st cp m in
  (fst (fst r) = false ->
   snd (fst r) = m /\
   exists evs report,
     snd r = evs ++ [Log ERROR report] /\
     forall text, ~ In (Log ERROR text) evs)
  /\
  (fst (fst r) = true ->
   exists evs,
     snd r = evs ++ [Subscribe st; Advertise (st ++ "_converted")] /\
     forall text, ~ In (Log ERROR text) evs).
Proof.
  cbv zeta. unfold initializeWrenchComm.
  destruct (getIndex e m) as [arm|].
  { split; [|discriminate]. intros _. split; [reflexivity|].
    exists []. eexists. split; [reflexivity|]. intros text []. }
  pose proof (transform_loop_events listener_ gf (sensor_origin sf) 0
                (Z.to_nat (max_tf_attempts_ m))) as Hevs.
  destruct (transform_loop _ _ _ _ _) as [[attempts stamped] evs]. cbn [snd] in Hevs.
  assert (Hno : forall text, ~ In (Log ERROR text) evs).
  { intros text Hin. destruct (Hevs _ Hin) as [E|[E|E]]; discriminate. }
  destruct (attempts >=? max_tf_attempts_ m)%Z.
  { split; [|discriminate]. intros _. split; [reflexivity|].
    exists evs. eexists. split; [reflexivity|exact Hno]. }
  destruct (parser_ cp) as [C|].
  2:{ split; [|discriminate]. intros _. split; [reflexivity|].
    exists evs. eexists. split; [reflexivity|exact Hno]. }
  destruct (negb (Eigen.cols C =? 6)%Z || negb (Eigen.rows C =? 6)%Z).
  { split; [|discriminate]. intros _. split; [reflexivity|].
    exists evs. eexists. split; [reflexivity|exact Hno]. }
  split; [discriminate|]. intros _. exists evs. split; [reflexivity|exact Hno].
Qed.

(** X12.  With a bound that is not positive no transform lookup is made and
    every registration fails, whatever the listener would answer. *)
Theorem initializeWrenchComm_no_attempts (listener_ : tf.TransformListener)
    (parser_ : MatrixParser) (e sf gf st cp : string) (m : t) :
  (max_tf_attempts_ m <= 0)%Z ->
  fst (initializeWrenchComm listener_ parser_ e sf gf st cp m) = (false, m) /\
  attempts_made (snd (initializeWrenchComm listener_ parser_ e sf gf st cp m)) = 0.
Proof.
  intros Hmax. unfold initializeWrenchComm.
  destruct (getIndex e m) as [arm|]; [split; reflexivity|].
  replace (Z.to_nat (max_tf_attempts_ m)) with 0 by lia. cbn [transform_loop].
  replace (0 >=? max_tf_attempts_ m)%Z with true by (symmetry; apply Z.geb_le; lia).
  split; reflexivity.
Qed.

Lemma getIndex_from_app (key e : string) (keys : list string) (j : nat) :
  getIndex_from key (keys ++ [e]) j =
  match getIndex_from key keys j with
  | Some i => Some i
  | None => if String.eqb e key then Some (j + List.length keys) else None
  end.
Proof.
  revert j; induction keys as [|k keys IH]; intros j; cbn.
  - rewrite Nat.add_0_r. reflexivity.
  - destruct (String.eqb k key); [reflexivity|].
    rewrite IH. destruct (getIndex_from key keys (S j)); [reflexivity|].
    destruct (String.eqb e key); [f_equal; lia|reflexivity].
Qed.

Lemma nth_error_snoc {A : Type} (l : list A) (a : A) :
  nth_error (l ++ [a]) (List.length l) = Some a.
Proof. rewrite nth_error_app2, Nat.sub_diag by lia. reflexivity. Qed.

(** X13.  After a successful registration on a reachable manager the new
    end-effector reports the zero wrench at the sensor point, every other
    name is answered as before, and [wrenchAtGrippingPoint] for the new
    end-effector publishes on the sensor topic with [_converted] appended,
    in the gripping frame given at registration. *)
Theorem initializeWrenchComm_new_channel (listener_ : tf.TransformListener)
    (parser_ : MatrixParser) (e sf gf st cp : string) (now : Time) (m : t) :
  reachable m ->
  fst (fst (initializeWrenchComm listener_ parser_ e sf gf st cp m)) = true ->
  let m' := snd (fst (initializeWrenchComm listener_ parser_ e sf gf st cp m)) in
  wrenchAtSensorPoint e m' = Returned (Some (tf.wrenchKDLToEigen KDL.Wrench_Zero)) /\
  (forall e', e' <> e -> wrenchAtSensorPoint e' m' = wrenchAtSensorPoint e' m) /\
  exists T,
    wrenchAtGrippingPoint now e m' =
      Returned
        (Some (tf.wrenchKDLToEigen (KDL.Frame_mul_Wrench T KDL.Wrench_Zero)),
         [Publish (st ++ "_converted")
            {| geometry_msgs.ws_header :=
                 {| seq := 0; stamp := now; frame_id := gf |};
               geometry_msgs.wrench :=
                 tf.wrenchKDLToMsg (KDL.Frame_mul_Wrench T KDL.Wrench_Zero) |}]).
Proof.
  intros Hreach Hok m'. subst m'.
  destruct (reachable_well_formed Hreach) as (_ & Hg & Ht & Hw & _ & _ & Hp & _ & _).
  destruct (initializeWrenchComm_cases listener_ parser_ e sf gf st cp m)
    as [[Hf _]|[_ (C & T & Hnew & _ & _ & _ & ->)]]; [congruence|].
  assert (He : getIndex e (add_comm e sf gf st C T m)
               = Some (List.length (manager_index_ m))).
  { unfold getIndex. cbn [manager_index_ add_comm]. rewrite getIndex_from_app.
    rewrite (proj2 (getIndex_from_none e (manager_index_ m) 0) Hnew).
    rewrite String.eqb_refl. reflexivity. }
  split; [|split].
  - unfold wrenchAtSensorPoint. rewrite He. cbn [measured_wrench_ add_comm].
    unfold at_. rewrite <- Hw, nth_error_snoc. reflexivity.
  - intros e' Hne. unfold wrenchAtSensorPoint, getIndex.
    cbn [manager_index_ measured_wrench_ add_comm]. rewrite getIndex_from_app.
    destruct (getIndex_from e' (manager_index_ m) 0) as [i|] eqn:Ei.
    + apply getIndex_from_some in Ei. destruct Ei as [_ Ei].
      rewrite Nat.sub_0_r in Ei.
      assert (Hi : i < List.length (measured_wrench_ m)).
      { rewrite Hw. apply nth_error_Some. congruence. }
      unfold at_. rewrite nth_error_app1 by exact Hi. reflexivity.
    + destruct (String.eqb_spec e e') as [E|N]; [congruence|reflexivity].
  - exists T. unfold wrenchAtGrippingPoint. rewrite He.
    cbn [sensor_to_gripping_point_ measured_wrench_ gripping_frame_
         processed_ft_pub_ add_comm].
    unfold at_. rewrite <- Ht at 1. rewrite nth_error_snoc. cbn [bind].
    rewrite <- Hw at 1. rewrite nth_error_snoc. cbn [bind].
    rewrite <- Hg at 1. rewrite nth_error_snoc. cbn [bind].
    rewrite <- Hp at 1. rewrite nth_error_snoc. reflexivity.
Qed.

(** X14.  [setWrenchManager] returns false only for an arm with a sensor,
    and then the manager is as it was; for an arm without a sensor it
    returns true, makes no lookup and registers nothing; a success for an
    arm with a sensor has registered the arm under its [kdl_eef_frame],
    with the matrix found under its name followed by [/sensor_calib]. *)
Theorem setWrenchManager_outcome (listener_ : tf.TransformListener)
    (parser_ : MatrixParser) (arm_info : ArmInfo.t) (m : t) :
  let r := setWrenchManager listener_ parser_ arm_info m in
  (fst (fst r) = false -> ArmInfo.has_ft_sensor arm_info = true /\ snd (fst r) = m)
  /\
  (ArmInfo.has_ft_sensor arm_info = false ->
   fst r = (true, m) /\ attempts_made (snd r) = 0)
  /\
  (ArmInfo.has_ft_sensor arm_info = true -> fst (fst r) = true ->
   exists C,
     parser_ (ArmInfo.name arm_info ++ "/sensor_calib")%string = Some C /\
     manager_index_ (snd (fst r)) = manager_index_ m ++ [ArmInfo.kdl_eef_frame arm_info] /\
     calibration_matrix_ (snd (fst r)) = calibration_matrix_ m ++ [C] /\
     sensor_frame_ (snd (fst r)) = sensor_frame_ m ++ [ArmInfo.sensor_frame arm_info]).
Proof.
  cbv zeta. unfold setWrenchManager.
  destruct (ArmInfo.has_ft_sensor arm_info).
  - pose proof (initializeWrenchComm_cases listener_ parser_
                  (ArmInfo.kdl_eef_frame arm_info) (ArmInfo.sensor_frame arm_info)
                  (ArmInfo.gripping_frame arm_info) (ArmInfo.sensor_topic arm_info)
                  (ArmInfo.name arm_info ++ "/sensor_calib")%string m) as Hcases.
    destruct (initializeWrenchComm _ _ _ _ _ _ _ _) as [[ok m'] evs].
    cbn [fst snd] in Hcases.
    destruct Hcases as [[-> ->]|[-> (C & T & _ & Hp & _ & _ & ->)]]; cbn.
    + split; [auto|]. split; discriminate.
    + split; [discriminate|]. split; [discriminate|]. intros _ _. eauto.
  - cbn. split; [discriminate|]. split; [auto|discriminate].
Qed.

(** X15.  On every reachable manager the parallel vectors have one entry
    per registered end-effector, the registered names are pairwise
    different, and every calibration matrix is 6x6. *)
Theorem reachable_channels_aligned (m : t) :
  reachable m -> well_formed m.
Proof. exact (@reachable_well_formed m). Qed.

(** *** The further manager properties at concrete managers *)

Import WrenchExample2.

Lemma forceTorqueCB_unknown_frame_witness :
  exists report, forceTorqueCB stray_sample one_arm = Returned (one_arm, [Log ERROR report]).
Proof.
  apply forceTorqueCB_unknown_frame. cbn. intros [E|[]]. discriminate.
Defined.

Lemma forceTorqueCB_frame_witness :
  exists m' evs, forceTorqueCB sample two_arms_one_sensor = Returned (m', evs).
Proof.
  destruct (forceTorqueCB_frame sample two_arms_one_sensor_reachable)
    as (m' & evs & H & _).
  exists m', evs. exact H.
Defined.

Lemma forceTorqueCB_overwrites_witness :
  forceTorqueCB later_sample one_arm_loaded = forceTorqueCB later_sample one_arm.
Proof.
  assert (H1 : forceTorqueCB sample one_arm = Returned (one_arm_loaded, []))
    by (vm_compute; reflexivity).
  exact (@forceTorqueCB_overwrites sample later_sample one_arm one_arm_loaded []
           eq_refl H1).
Defined.

Lemma initializeWrenchComm_succeeds_iff_witness :
  fst (fst (initializeWrenchComm resolves_third calibrated "right_arm" "right_sensor"
              "right_grip" "right_ft" "right/sensor_calib" one_arm)) = true.
Proof.
  apply initializeWrenchComm_succeeds_iff. split; [|split].
  - cbn. intros [E|[]]. discriminate.
  - exists 2. eexists. split; [reflexivity|]. split; [reflexivity|].
    intros [|[|i]] Hi; [reflexivity|reflexivity|lia].
  - exists identity6. repeat split.
Defined.

Lemma initializeWrenchComm_reports_witness :
  exists evs report,
    snd (initializeWrenchComm never_resolves calibrated "right_arm" "right_sensor"
           "right_grip" "right_ft" "right/sensor_calib" one_arm)
    = evs ++ [Log ERROR report].
Proof.
  pose proof (initializeWrenchComm_reports never_resolves calibrated "right_arm"
                "right_sensor" "right_grip" "right_ft" "right/sensor_calib" one_arm)
    as H. cbv zeta in H.
  destruct (proj1 H eq_refl) as (_ & evs & report & He & _).
  exists evs, report. exact He.
Defined.

Lemma initializeWrenchComm_no_attempts_witness :
  fst (initializeWrenchComm resolves calibrated "left_arm" "left_sensor"
         "left_grip" "left_ft" "left/sensor_calib" (empty 0))
  = (false, empty 0).
Proof.
  refine (proj1 (@initializeWrenchComm_no_attempts resolves calibrated "left_arm"
                   "left_sensor" "left_grip" "left_ft" "left/sensor_calib"
                   (empty 0) _)).
  cbn. lia.
Defined.

Lemma initializeWrenchComm_new_channel_witness :
  wrenchAtSensorPoint "left_arm" one_arm
  = Returned (Some (tf.wrenchKDLToEigen KDL.Wrench_Zero)).
Proof.
  exact (proj1 (@initializeWrenchComm_new_channel resolves calibrated "left_arm"
                  "left_sensor" "left_grip" "left_ft" "left/sensor_calib" noon
                  (empty 5) (reach_new 5) eq_refl)).
Defined.

Lemma setWrenchManager_outcome_witness :
  fst (setWrenchManager resolves calibrated bare_arm_info one_arm) = (true, one_arm) /\
  manager_index_ (snd (fst (setWrenchManager resolves calibrated right_arm_info one_arm)))
  = manager_index_ one_arm ++ ["right_arm"%string].
Proof.
  pose proof (setWrenchManager_outcome resolves calibrated bare_arm_info one_arm) as Hbare.
  pose proof (setWrenchManager_outcome resolves calibrated right_arm_info one_arm) as Hright.
  cbv zeta in Hbare, Hright.
  destruct Hbare as (_ & Hb & _). destruct Hright as (_ & _ & Hr).
  split.
  - exact (proj1 (Hb eq_refl)).
  - destruct (Hr eq_refl eq_refl) as (C & _ & Hidx & _). exact Hidx.
Defined.

Lemma reachable_channels_aligned_witness : well_formed two_arms_one_sensor.
Proof.
  exact (reachable_channels_aligned two_arms_one_sensor_reachable).
Defined.
